(** * Digital signage: store, command queue, playlist resolution and
      playback sequencing

    A shallow embedding of the signage application's TypeScript sources:
    - [src/lib/store.ts]: the in-memory registries and their persistence;
    - [src/app/api/schedule/route.ts], [src/app/api/files/...]: the routes
      that mutate or serve the registries;
    - [src/app/api/commands/route.ts]: the HTTP-fallback command queue;
    - [src/app/player/page.tsx] and the enhanced player page that follows the
      command route in the sources: playlist resolution, duration
      resolution, the advance timer and the command interpreter.

    JavaScript numbers are modelled as exact rationals extended with NaN and
    the two infinities (rounding of IEEE doubles is not modelled); epoch
    instants, sort orders and timestamps, which the code only compares and
    adds, are integers. *)

From Stdlib Require Import List ZArith QArith Qround Bool String Ascii Lia Lqa.
From Stdlib Require Import Permutation Sorted DecimalString.
Import ListNotations.

Set Implicit Arguments.

(* ================================================================== *)
(** ** JavaScript values *)
(* ================================================================== *)

Module Js.

(** A JavaScript [number]. *)
Inductive jsnum : Type :=
| JNaN
| JPosInf
| JNegInf
| JFin (q : Q).

(** [a <= b]; every comparison with NaN is false. *)
Definition js_le (a b : jsnum) : bool :=
  match a, b with
  | JNaN, _ | _, JNaN => false
  | JNegInf, _ => true
  | _, JPosInf => true
  | JFin x, JFin y => Qle_bool x y
  | _, _ => false
  end.

(** [a < b]. *)
Definition js_lt (a b : jsnum) : bool :=
  match a, b with
  | JNaN, _ | _, JNaN => false
  | JFin x, JFin y => negb (Qle_bool y x)
  | JNegInf, JNegInf => false
  | JNegInf, _ => true
  | JPosInf, _ => false
  | JFin _, JPosInf => true
  | JFin _, JNegInf => false
  end.

Definition js_ge (a b : jsnum) : bool := js_le b a.
Definition js_gt (a b : jsnum) : bool := js_lt b a.

(** [isFinite] / [Number.isFinite] on a number. *)
Definition isFinite (n : jsnum) : bool :=
  match n with JFin _ => true | _ => false end.

(** [Math.min] and [Math.max]: NaN if either argument is NaN. *)
Definition Math_min (a b : jsnum) : jsnum :=
  match a, b with
  | JNaN, _ | _, JNaN => JNaN
  | _, _ => if js_le a b then a else b
  end.

Definition Math_max (a b : jsnum) : jsnum :=
  match a, b with
  | JNaN, _ | _, JNaN => JNaN
  | _, _ => if js_le a b then b else a
  end.

(** Truthiness of a number: NaN and 0 are falsy. *)
Definition num_truthy (n : jsnum) : bool :=
  match n with
  | JNaN => false
  | JFin q => negb (Qeq_bool q 0)
  | _ => true
  end.

(** Sign of a non-NaN number: [Gt], [Eq] (zero) or [Lt]. *)
Definition js_sign (n : jsnum) : comparison :=
  match n with
  | JNaN => Eq
  | JPosInf => Gt
  | JNegInf => Lt
  | JFin q => Qcompare q 0
  end.

Definition js_mul (a b : jsnum) : jsnum :=
  match a, b with
  | JNaN, _ | _, JNaN => JNaN
  | JFin x, JFin y => JFin (x * y)
  | _, _ =>
      match js_sign a, js_sign b with
      | Eq, _ | _, Eq => JNaN
      | Gt, Gt | Lt, Lt => JPosInf
      | _, _ => JNegInf
      end
  end.

Definition js_add (a b : jsnum) : jsnum :=
  match a, b with
  | JNaN, _ | _, JNaN => JNaN
  | JFin x, JFin y => JFin (x + y)
  | JPosInf, JNegInf | JNegInf, JPosInf => JNaN
  | JPosInf, _ | _, JPosInf => JPosInf
  | JNegInf, _ | _, JNegInf => JNegInf
  end.

Definition of_Z (z : Z) : jsnum := JFin (inject_Z z).

(** Values that reach the code through [JSON.parse] or a missing property.
    [JObject] stands for a plain object (arrays are left out). *)
Inductive JsValue : Type :=
| JUndefined
| JNull
| JBool (b : bool)
| JNumber (n : jsnum)
| JString (s : string)
| JObject.

(** Truthiness of a string: only the empty string is falsy. *)
Definition str_truthy (s : string) : bool :=
  negb (String.eqb s EmptyString).

(** Truthiness of an optional string property ([undefined] is falsy). *)
Definition optstr_truthy (o : option string) : bool :=
  match o with Some s => str_truthy s | None => false end.

Section ToNumber.
(** [Number(s)] on a string is kept abstract: every result below holds for
    whatever function the engine implements. *)
Variable StringToNumber : string -> jsnum.

(** [Number(v)]. *)
Definition ToNumber (v : JsValue) : jsnum :=
  match v with
  | JUndefined => JNaN
  | JNull => JFin 0
  | JBool true => JFin 1
  | JBool false => JFin 0
  | JNumber n => n
  | JString s => StringToNumber s
  | JObject => JNaN
  end.
End ToNumber.

(** A reading of [Number] on strings of ASCII decimal digits (the empty
    string is 0); it answers NaN on anything else.  It is used to run the
    model on concrete ["HH:mm"] strings. *)
Definition digit_value (c : ascii) : option Z :=
  let n := Z.of_nat (nat_of_ascii c) in
  if ((48 <=? n) && (n <=? 57))%Z then Some (n - 48)%Z else None.

Fixpoint digits_value (acc : Z) (s : string) : option Z :=
  match s with
  | EmptyString => Some acc
  | String c s' =>
      match digit_value c with
      | Some d => digits_value (10 * acc + d)%Z s'
      | None => None
      end
  end.

Definition decimalToNumber (s : string) : jsnum :=
  match digits_value 0 s with
  | Some z => of_Z z
  | None => JNaN
  end.

(** Outcome of code that may throw. *)
Inductive JsError : Type := TypeError.

Inductive JsResult (A : Type) : Type :=
| Ok (a : A)
| Throw (e : JsError).

Arguments Ok {A} a.
Arguments Throw {A} e.

End Js.

Import Js.

(* ================================================================== *)
(** ** Insertion-ordered maps and stable sorting *)
(* ================================================================== *)

(** A JavaScript [Map] with string keys: entries in insertion order, keys
    unique. *)
Section JsMap.
Variable V : Type.

Definition JsMap := list (string * V).

Fixpoint map_get (k : string) (m : JsMap) : option V :=
  match m with
  | [] => None
  | (k', v) :: m' => if String.eqb k k' then Some v else map_get k m'
  end.

Definition map_has (k : string) (m : JsMap) : bool :=
  match map_get k m with Some _ => true | None => false end.

(** [m.set(k, v)]: an existing key keeps its position, a new key goes
    last. *)
Fixpoint map_set (k : string) (v : V) (m : JsMap) : JsMap :=
  match m with
  | [] => [(k, v)]
  | (k', v') :: m' =>
      if String.eqb k k' then (k, v) :: m' else (k', v') :: map_set k v m'
  end.

(** [m.delete(k)], the map part; the boolean result is [map_has k m]. *)
Definition map_delete (k : string) (m : JsMap) : JsMap :=
  filter (fun kv => negb (String.eqb (fst kv) k)) m.

Definition map_values (m : JsMap) : list V := map snd m.
End JsMap.

Arguments map_get {V} k m.
Arguments map_has {V} k m.
Arguments map_set {V} k v m.
Arguments map_delete {V} k m.
Arguments map_values {V} m.

(** [Array.prototype.sort(cmp)]: the sort is stable, so its result is the
    one of a stable insertion sort.  [x] goes before the first [y] with
    [cmp x y <= 0]. *)
Section StableSort.
Variable A : Type.
Variable cmp : A -> A -> Z.

Fixpoint insert_sorted (x : A) (l : list A) : list A :=
  match l with
  | [] => [x]
  | y :: l' =>
      if (cmp x y <=? 0)%Z then x :: l else y :: insert_sorted x l'
  end.

Fixpoint array_sort (l : list A) : list A :=
  match l with
  | [] => []
  | x :: l' => insert_sorted x (array_sort l')
  end.
End StableSort.

(* ================================================================== *)
(** ** The store ([src/lib/store.ts]) and its routes *)
(* ================================================================== *)

Module Store.

Inductive Storage : Type := Public | Tmp | External.

Definition Storage_eqb (a b : Storage) : bool :=
  match a, b with
  | Public, Public | Tmp, Tmp | External, External => true
  | _, _ => false
  end.

(** [FileItem]. *)
Record FileItem : Type := {
  f_id : string;
  f_name : string;
  f_mime : string;
  f_size : Z;
  f_storage : Storage;
  f_path : string;
  f_url : string;
  f_uploadedAt : Z;
  f_durationSeconds : option Q
}.

(** [ScheduleItem]; [s_muted] is the extra property the schedule route
    still copies. *)
Record ScheduleItem : Type := {
  s_id : string;
  s_fileId : string;
  s_startAt : Z;
  s_endAt : Z;
  s_order : Z;
  s_days : option (list Z);
  s_startTime : option string;
  s_endTime : option string;
  s_durationSeconds : option Q;
  s_muted : option bool
}.

Inductive Orientation : Type := Landscape | Portrait.

(** [PlayerSettings]. *)
Record PlayerSettings : Type := {
  brightness : Q;
  orientation : Orientation;
  autoStart : bool;
  defaultImageDuration : Q;
  defaultLinkDuration : Q
}.

(** [Partial<PlayerSettings>]. *)
Record PartialSettings : Type := {
  p_brightness : option Q;
  p_orientation : option Orientation;
  p_autoStart : option bool;
  p_defaultImageDuration : option Q;
  p_defaultLinkDuration : option Q
}.

Definition defaultPlayerSettings : PlayerSettings :=
  {| brightness := 100;
     orientation := Landscape;
     autoStart := true;
     defaultImageDuration := 10;
     defaultLinkDuration := 30 |}.

(** [{ ...base, ...upd }]. *)
Definition spread (base : PlayerSettings) (upd : PartialSettings)
  : PlayerSettings :=
  {| brightness := match p_brightness upd with Some v => v | None => brightness base end;
     orientation := match p_orientation upd with Some v => v | None => orientation base end;
     autoStart := match p_autoStart upd with Some v => v | None => autoStart base end;
     defaultImageDuration :=
       match p_defaultImageDuration upd with Some v => v | None => defaultImageDuration base end;
     defaultLinkDuration :=
       match p_defaultLinkDuration upd with Some v => v | None => defaultLinkDuration base end |}.

(** [Store]. *)
Record Store : Type := {
  files : JsMap FileItem;
  schedules : JsMap ScheduleItem;
  tokens : list string;
  adminPassword : string;
  playerSettings : PlayerSettings
}.

Definition set_files (m : JsMap FileItem) (st : Store) : Store :=
  {| files := m; schedules := schedules st; tokens := tokens st;
     adminPassword := adminPassword st; playerSettings := playerSettings st |}.

Definition set_schedules (m : JsMap ScheduleItem) (st : Store) : Store :=
  {| files := files st; schedules := m; tokens := tokens st;
     adminPassword := adminPassword st; playerSettings := playerSettings st |}.

Definition set_playerSettings (p : PlayerSettings) (st : Store) : Store :=
  {| files := files st; schedules := schedules st; tokens := tokens st;
     adminPassword := adminPassword st; playerSettings := p |}.

(** The store a fresh process starts with. *)
Definition emptyStore (password : string) : Store :=
  {| files := []; schedules := []; tokens := [];
     adminPassword := password; playerSettings := defaultPlayerSettings |}.

(** [addFile]. *)
Definition addFile (file : FileItem) (st : Store) : Store :=
  set_files (map_set (f_id file) file (files st)) st.

(** [removeFile]: when the file was there, the loop deletes every schedule
    entry whose [fileId] is [id] (keys are unique, so deleting the visited
    entry's key removes that entry and no other). *)
Definition removeFile (id : string) (st : Store) : bool * Store :=
  let result := map_has id (files st) in
  if result then
    (true,
     set_schedules
       (filter (fun kv => negb (String.eqb (s_fileId (snd kv)) id))
               (schedules st))
       (set_files (map_delete id (files st)) st))
  else (false, st).

(** [addSchedule]. *)
Definition addSchedule (schedule : ScheduleItem) (st : Store) : Store :=
  set_schedules (map_set (s_id schedule) schedule (schedules st)) st.

(** [removeSchedule]. *)
Definition removeSchedule (id : string) (st : Store) : bool * Store :=
  let result := map_has id (schedules st) in
  if result then (true, set_schedules (map_delete id (schedules st)) st)
  else (false, st).

(** [updatePlayerSettings]. *)
Definition updatePlayerSettings (settings : PartialSettings) (st : Store)
  : Store :=
  set_playerSettings (spread (playerSettings st) settings) st.

(** What [JSON.parse] of the persistence file yields, as far as
    [loadStoreFromDisk] looks at it: each of the three properties may be
    missing (or not an array). *)
Record Snapshot : Type := {
  snap_files : option (list (string * FileItem));
  snap_schedules : option (list (string * ScheduleItem));
  snap_playerSettings : option PartialSettings
}.

(** [saveStoreToDisk]: the object that is serialised. *)
Definition saveStoreToDisk (st : Store) : Snapshot :=
  {| snap_files := Some (files st);
     snap_schedules := Some (schedules st);
     snap_playerSettings :=
       Some {| p_brightness := Some (brightness (playerSettings st));
               p_orientation := Some (orientation (playerSettings st));
               p_autoStart := Some (autoStart (playerSettings st));
               p_defaultImageDuration := Some (defaultImageDuration (playerSettings st));
               p_defaultLinkDuration := Some (defaultLinkDuration (playerSettings st)) |} |}.

Section Load.
(** [fs.existsSync]. *)
Variable existsSync : string -> bool.

(** The test under which a file entry of the snapshot is restored. *)
Definition restorable (fileItem : FileItem) : bool :=
  (negb (Storage_eqb (f_storage fileItem) External)
   && str_truthy (f_path fileItem) && existsSync (f_path fileItem))
  || Storage_eqb (f_storage fileItem) External.

Definition restoreFiles (entries : list (string * FileItem)) : JsMap FileItem :=
  fold_left
    (fun m kv => if restorable (snd kv) then map_set (fst kv) (snd kv) m else m)
    entries [].

Definition restoreSchedules (fs : JsMap FileItem)
  (entries : list (string * ScheduleItem)) : JsMap ScheduleItem :=
  fold_left
    (fun m kv =>
       if map_has (s_fileId (snd kv)) fs then map_set (fst kv) (snd kv) m else m)
    entries [].

(** [loadStoreFromDisk]; [disk = None] when there is no persistence file or
    it cannot be parsed (the [catch] leaves the store as it is). *)
Definition loadStoreFromDisk (disk : option Snapshot) (st : Store) : Store :=
  match disk with
  | None => st
  | Some data =>
      let st1 :=
        match snap_files data with
        | Some entries => set_files (restoreFiles entries) st
        | None => st
        end in
      let st2 :=
        match snap_schedules data with
        | Some entries =>
            set_schedules (restoreSchedules (files st1) entries) st1
        | None => st1
        end in
      match snap_playerSettings data with
      | Some p => set_playerSettings (spread defaultPlayerSettings p) st2
      | None => st2
      end
  end.
End Load.

(** [auth]: the request's [authorization] header against the tokens. *)
Definition auth (header : option string) (st : Store) : bool :=
  let header := match header with Some h => h | None => EmptyString end in
  let token :=
    if String.prefix "Bearer " header
    then String.substring 7 (String.length header - 7) header
    else EmptyString in
  str_truthy token && existsb (String.eqb token) (tokens st).

(** [GET /api/schedule]. *)
Definition GET_schedule (st : Store) : list ScheduleItem :=
  array_sort (fun a b => (s_order a - s_order b)%Z) (map_values (schedules st)).

(** [GET /api/files]: newest upload first. *)
Definition GET_files (st : Store) : list FileItem :=
  array_sort (fun a b => (f_uploadedAt b - f_uploadedAt a)%Z)
             (map_values (files st)).

(** The JSON body of [POST /api/schedule], property by property; a property
    of the wrong type is [None].  [b_durationSeconds] is
    [Number(body.durationSeconds)]. *)
Record ScheduleBody : Type := {
  b_id : option string;
  b_fileId : option string;
  b_startAt : option Z;
  b_endAt : option Z;
  b_order : option Z;
  b_days : option (list Z);
  b_startTime : option string;
  b_endTime : option string;
  b_durationSeconds : jsnum;
  b_muted : option bool
}.

Record PostReply : Type := {
  status : Z;
  created : option ScheduleItem
}.

(** [POST /api/schedule]; [now] is [Date.now()] and [genId] the identifier
    the template literal produces when the body has none. *)
Definition POST_schedule (header : option string) (body : ScheduleBody)
  (now : Z) (genId : string) (st : Store) : PostReply * Store :=
  if negb (auth header st) then ({| status := 401; created := None |}, st)
  else
    match b_fileId body with
    | None => ({| status := 400; created := None |}, st)
    | Some fileId =>
        if negb (str_truthy fileId) || negb (map_has fileId (files st))
        then ({| status := 400; created := None |}, st)
        else
          let start := match b_startAt body with Some v => v | None => now end in
          let end_ := match b_endAt body with Some v => v | None => (start + 3600000)%Z end in
          let ord := match b_order body with Some v => v | None => 0%Z end in
          let days :=
            match b_days body with
            | Some ds => Some (filter (fun n => (0 <=? n)%Z && (n <=? 6)%Z) ds)
            | None => None
            end in
          let isLink :=
            match map_get fileId (files st) with
            | Some file => String.prefix "link/" (f_mime file)
            | None => false
            end in
          let providedDuration :=
            match b_durationSeconds body with
            | JFin q => if negb (Qle_bool q 0) then Some q else None
            | _ => None
            end in
          let effectiveDuration :=
            if isLink
            then Some (match providedDuration with Some q => q | None => 10 end)
            else providedDuration in
          let item :=
            {| s_id := match b_id body with
                       | Some i => if str_truthy i then i else genId
                       | None => genId
                       end;
               s_fileId := fileId;
               s_startAt := start;
               s_endAt := end_;
               s_order := ord;
               s_days := match days with
                         | Some (d :: ds) => Some (d :: ds)
                         | _ => None
                         end;
               s_startTime := match b_startTime body with
                              | Some t => if str_truthy t then Some t else None
                              | None => None
                              end;
               s_endTime := match b_endTime body with
                            | Some t => if str_truthy t then Some t else None
                            | None => None
                            end;
               s_durationSeconds := effectiveDuration;
               s_muted := b_muted body |} in
          ({| status := 200; created := Some item |}, addSchedule item st)
    end.

(** [DELETE /api/schedule?id=...]. *)
Definition DELETE_schedule (header : option string) (id : option string)
  (st : Store) : Z * Store :=
  if negb (auth header st) then (401%Z, st)
  else
    match id with
    | None => (400%Z, st)
    | Some i =>
        if negb (str_truthy i) then (400%Z, st)
        else
          let '(removed, st') := removeSchedule i st in
          if removed then (200%Z, st') else (404%Z, st)
    end.

(** [DELETE /api/files/[id]]. *)
Definition DELETE_file (header : option string) (id : string) (st : Store)
  : Z * Store :=
  if negb (auth header st) then (401%Z, st)
  else if negb (map_has id (files st)) then (404%Z, st)
  else (200%Z, snd (removeFile id st)).

(** [Math.round] on a finite number. *)
Definition Math_round (q : Q) : Q := inject_Z (Qfloor (q + (1 # 2))).

(** The JSON body of [POST /api/settings]: each property is absent or
    carries a value. *)
Record SettingsBody : Type := {
  sb_brightness : option JsValue;
  sb_orientation : option JsValue;
  sb_autoStart : option JsValue;
  sb_defaultImageDuration : option JsValue;
  sb_defaultLinkDuration : option JsValue
}.

(** A number within [lo, hi], rounded; anything else is no update. *)
Definition roundedWithin (lo hi : Q) (value : option JsValue) : option Q :=
  match value with
  | Some (JNumber (JFin q)) =>
      if Qle_bool lo q && Qle_bool q hi then Some (Math_round q) else None
  | _ => None
  end.

(** The [updates] object the settings route collects. *)
Definition settingsUpdates (body : SettingsBody) : PartialSettings :=
  {| p_brightness := roundedWithin 0 200 (sb_brightness body);
     p_orientation :=
       match sb_orientation body with
       | Some (JString s) =>
           if String.eqb s "landscape" then Some Landscape
           else if String.eqb s "portrait" then Some Portrait
           else None
       | _ => None
       end;
     p_autoStart :=
       match sb_autoStart body with
       | Some (JBool b) => Some b
       | _ => None
       end;
     p_defaultImageDuration := roundedWithin 1 3600 (sb_defaultImageDuration body);
     p_defaultLinkDuration := roundedWithin 1 3600 (sb_defaultLinkDuration body) |}.

Definition noUpdates (u : PartialSettings) : bool :=
  match p_brightness u, p_orientation u, p_autoStart u,
        p_defaultImageDuration u, p_defaultLinkDuration u with
  | None, None, None, None, None => true
  | _, _, _, _, _ => false
  end.

(** [POST /api/settings]; [body = None] when the request is not JSON. *)
Definition POST_settings (header : option string) (body : option SettingsBody)
  (st : Store) : Z * Store :=
  if negb (auth header st) then (401%Z, st)
  else
    match body with
    | None => (400%Z, st)
    | Some b =>
        if noUpdates (settingsUpdates b) then (400%Z, st)
        else (200%Z, updatePlayerSettings (settingsUpdates b) st)
    end.

(** One mutation of the store, as the application performs them. *)
Inductive StoreOp : Type :=
| OpAddFile (file : FileItem)
| OpRemoveFile (id : string)
| OpDeleteFile (header : option string) (id : string)
| OpPostSchedule (header : option string) (body : ScheduleBody)
                 (now : Z) (genId : string)
| OpRemoveSchedule (id : string)
| OpDeleteSchedule (header : option string) (id : option string)
| OpLoad (existsSync : string -> bool) (disk : option Snapshot).


(** A snapshot that replaces the files also carries a [schedules] array, as
    every snapshot written by [saveStoreToDisk] does. *)
Definition load_consistent (op : StoreOp) : Prop :=
  match op with
  | OpLoad _ (Some data) => snap_files data = None \/ snap_schedules data <> None
  | _ => True
  end.

(** Every schedule of the store refers to a file of the store. *)
Definition refs_ok (st : Store) : Prop :=
  forall k s, In (k, s) (schedules st) -> map_has (s_fileId s) (files st) = true.

End Store.

(* ================================================================== *)
(** ** The HTTP-fallback command queue ([src/app/api/commands/route.ts]) *)
(* ================================================================== *)

Module Commands.

Section Queue.
(** The JSON payload of a command is opaque to the queue. *)
Variable Payload : Type.
Variable StringToNumber : string -> jsnum.

Record Command : Type := { ts : Z; payload : Payload }.

(** The parsed request body: an object with a [data] property, or anything
    else. *)
Inductive Body : Type :=
| Wrapped (data : Payload)
| Plain (body : Payload).

(** [POST /api/commands]; [body = None] when the request is not JSON, [ts]
    is [Date.now()]. *)
Definition POST (body : option Body) (now : Z) (commands : list Command)
  : Z * list Command :=
  match body with
  | None => (400%Z, commands)
  | Some b =>
      let payload := match b with Wrapped d => d | Plain p => p end in
      let pushed := commands ++ [{| ts := now; payload := payload |}] in
      let trimmed :=
        if (200 <? List.length pushed)%nat
        then skipn (List.length pushed - 200) pushed
        else pushed in
      (200%Z, trimmed)
  end.

(** [GET /api/commands?since=...]. *)
Definition GET (sinceStr : option string) (commands : list Command)
  : list Command :=
  let since :=
    match sinceStr with
    | Some s => if str_truthy s then StringToNumber s else JFin 0
    | None => JFin 0
    end in
  if js_gt since (JFin 0)
  then filter (fun c => js_gt (of_Z (ts c)) since) commands
  else skipn (List.length commands - 20) commands.

(** The queue after a sequence of POST requests, starting empty. *)
Definition serve (requests : list (option Body * Z)) : list Command :=
  fold_left (fun q r => snd (POST (fst r) (snd r) q)) requests [].
End Queue.

End Commands.

(* ================================================================== *)
(** ** The player page: playlist resolution *)
(* ================================================================== *)

Module Player.

Import Store.

(** An entry of the display list: a schedule rule of the active playlist,
    or the object the fallback builds from a file. *)
Inductive DisplayItem : Type :=
| FromSchedule (s : ScheduleItem)
| FromFile (id fileId : string) (durationSeconds : option Q).

Definition item_fileId (item : DisplayItem) : string :=
  match item with
  | FromSchedule s => s_fileId s
  | FromFile _ fileId _ => fileId
  end.

Definition item_durationSeconds (item : DisplayItem) : option Q :=
  match item with
  | FromSchedule s => s_durationSeconds s
  | FromFile _ _ d => d
  end.

(** [x] when it is a number greater than 0. *)
Definition positive_duration (d : option Q) : option Q :=
  match d with
  | Some q => if negb (Qle_bool q 0) then Some q else None
  | None => None
  end.

Definition msPerMinute : Z := 60000.
Definition msPerHour : Z := 3600000.
Definition msPerDay : Z := 86400000.

(** [t.split(":")]. *)
Fixpoint split_colon (s : string) : list string :=
  match s with
  | EmptyString => [EmptyString]
  | String c s' =>
      if Ascii.eqb c ":"%char then EmptyString :: split_colon s'
      else
        match split_colon s' with
        | hd :: tl => String c hd :: tl
        | [] => [String c EmptyString]
        end
  end.

Section Resolver.
(** The local time zone adjustment, in milliseconds, at an instant. *)
Variable LocalTZA : Z -> Z.
Variable StringToNumber : string -> jsnum.

Definition LocalTime (t : Z) : Z := (t + LocalTZA t)%Z.

(** [new Date(now).getDay()], [getHours()] and [getMinutes()]. *)
Definition getDay (now : Z) : Z := ((LocalTime now / msPerDay + 4) mod 7)%Z.
Definition getHours (now : Z) : Z := ((LocalTime now / msPerHour) mod 24)%Z.
Definition getMinutes (now : Z) : Z := ((LocalTime now / msPerMinute) mod 60)%Z.

(** [mins]: the minute of the local day. *)
Definition minuteOfDay (now : Z) : Z := (getHours now * 60 + getMinutes now)%Z.

(** [toMin]: [h * 60 + (m || 0)] over [t.split(":").map(Number)]. *)
Definition toMin (t : string) : jsnum :=
  let parts := map StringToNumber (split_colon t) in
  let h := nth 0 parts JNaN in
  let m := match nth_error parts 1 with
           | Some m => if num_truthy m then m else JFin 0
           | None => JFin 0
           end in
  js_add (js_mul h (JFin 60)) m.

(** The two bounds [s] and [e] of [inTimeWindow]. *)
Definition windowStart (start : option string) : jsnum :=
  match start with
  | Some t => if str_truthy t then toMin t else JFin 0
  | None => JFin 0
  end.

Definition windowEnd (end_ : option string) : jsnum :=
  match end_ with
  | Some t => if str_truthy t then toMin t else JFin (24 * 60)
  | None => JFin (24 * 60)
  end.

(** [inTimeWindow]. *)
Definition inTimeWindow (mins : Z) (start end_ : option string) : bool :=
  if negb (optstr_truthy start) && negb (optstr_truthy end_) then true
  else js_ge (of_Z mins) (windowStart start)
       && js_le (of_Z mins) (windowEnd end_).

Definition inActiveWindow (now : Z) (s : ScheduleItem) : bool :=
  ((s_startAt s <=? now) && (now <=? s_endAt s))%Z.

Definition onDay (day : Z) (s : ScheduleItem) : bool :=
  match s_days s with
  | Some days => existsb (Z.eqb day) days
  | None => true
  end.

(** [activePlaylist], for [Date.now() = now]. *)
Definition activePlaylist (now : Z) (schedules : list ScheduleItem)
  : list ScheduleItem :=
  let day := getDay now in
  let mins := minuteOfDay now in
  array_sort (fun a b => (s_order a - s_order b)%Z)
    (filter (fun s => inTimeWindow mins (s_startTime s) (s_endTime s))
       (filter (onDay day)
          (filter (inActiveWindow now) schedules))).

(** The object the fallback builds from a file. *)
Definition fileEntry (f : FileItem) : DisplayItem :=
  FromFile (f_id f) (f_id f) (positive_duration (f_durationSeconds f)).

(** [displayList]. *)
Definition displayList (playlist : list ScheduleItem) (files : list FileItem)
  : list DisplayItem :=
  match playlist with
  | [] => map fileEntry files
  | _ => map FromSchedule playlist
  end.

(** The display list a player shows for a store, when it has fetched
    [GET /api/files] and [GET /api/schedule] and resolves at [now]. *)
Definition resolve (now : Z) (st : Store) : list DisplayItem :=
  displayList (activePlaylist now (GET_schedule st)) (GET_files st).
End Resolver.

(** [files.find(f => f.id === fileId)]. *)
Definition findFile (fileId : string) (files : list FileItem)
  : option FileItem :=
  find (fun f => String.eqb (f_id f) fileId) files.

(** [currentFile]: indexing past the end yields [undefined], whose
    [fileId] cannot be read. *)
Definition currentFile (displayList : list DisplayItem) (activeIndex : nat)
  (files : list FileItem) : JsResult (option FileItem) :=
  match displayList with
  | [] => Ok None
  | _ =>
      match nth_error displayList activeIndex with
      | Some item => Ok (findFile (item_fileId item) files)
      | None => Throw TypeError
      end
  end.

Definition isImage (f : FileItem) : bool := String.prefix "image/" (f_mime f).
Definition isLink (f : FileItem) : bool := String.prefix "link/" (f_mime f).
Definition isVideo (f : FileItem) : bool := String.prefix "video/" (f_mime f).

(* ------------------------------------------------------------------ *)
(** *** Duration resolution *)

(** The two player pages of the sources differ in how they pick a delay:
    [Basic] is [src/app/player/page.tsx], [Enhanced] the page with
    [getEffectiveDuration]. *)
Inductive Variant : Type := Basic | Enhanced.

Definition Qmaximum (a b : Q) : Q := if Qle_bool a b then b else a.

(** [x || fallback] on a number. *)
Definition orElse (x fallback : Q) : Q :=
  if Qeq_bool x 0 then fallback else x.

(** [DEFAULT_IMAGE_LINK_SEC] of the basic page. *)
Definition DEFAULT_IMAGE_LINK_SEC (item : DisplayItem) : Q :=
  match positive_duration (item_durationSeconds item) with
  | Some d => d
  | None => 10
  end.

(** [getEffectiveDuration] of the enhanced page. *)
Definition getEffectiveDuration (serverSettings : PlayerSettings)
  (item : DisplayItem) (file : FileItem) : Q :=
  match positive_duration (item_durationSeconds item) with
  | Some d => d
  | None =>
      match positive_duration (f_durationSeconds file) with
      | Some d => d
      | None =>
          if isImage file then orElse (defaultImageDuration serverSettings) 10
          else if isLink file then orElse (defaultLinkDuration serverSettings) 30
          else 10
      end
  end.

(** Delay, in milliseconds, of the timer armed for an image or a link. *)
Definition imageLinkDelay (v : Variant) (serverSettings : PlayerSettings)
  (item : DisplayItem) (file : FileItem) : Q :=
  match v with
  | Basic => DEFAULT_IMAGE_LINK_SEC item * 1000
  | Enhanced =>
      Qmaximum (1 # 10) (getEffectiveDuration serverSettings item file) * 1000
  end.

(** The natural length [setBackup] counts with. *)
Definition naturalOr30 (duration : jsnum) : Q :=
  match duration with
  | JFin d => if negb (Qle_bool d 0) then d else 30
  | _ => 30
  end.

(** Delay, in milliseconds, of the timer [setBackup] arms for a video whose
    element reports [duration]. *)
Definition backupDelay (v : Variant) (item : DisplayItem) (file : FileItem)
  (duration : jsnum) : Q :=
  match positive_duration (item_durationSeconds item) with
  | Some o => Qmaximum (1 # 10) o * 1000
  | None =>
      match v, positive_duration (f_durationSeconds file) with
      | Enhanced, Some o => Qmaximum (1 # 10) o * 1000
      | _, _ => (naturalOr30 duration + (1 # 2)) * 1000
      end
  end.

(** The duration is known: [isFinite(duration) && duration > 0]. *)
Definition durationKnown (duration : jsnum) : bool :=
  isFinite duration && js_gt duration (JFin 0).

(* ------------------------------------------------------------------ *)
(** *** The player's runtime state and its timer *)

Inductive VideoTag : Type := TagA | TagB.

Definition VideoTag_eqb (a b : VideoTag) : bool :=
  match a, b with
  | TagA, TagA | TagB, TagB => true
  | _, _ => false
  end.

Definition otherTag (t : VideoTag) : VideoTag :=
  match t with TagA => TagB | TagB => TagA end.

(** What a function created during a render sees of that render. *)
Record Closure : Type := {
  c_displayList : list DisplayItem;
  c_activeIndex : nat;
  c_files : list FileItem;
  c_activeVideoTag : VideoTag
}.

(** A pending [window.setTimeout(advance, delay)]. *)
Record Timeout : Type := {
  handle : positive;
  delay : Q;
  callback : Closure
}.

(** A pending [onLoaded] listener for [loadedmetadata] on a video tag. *)
Record LoadedListener : Type := {
  l_tag : VideoTag;
  l_item : DisplayItem;
  l_file : FileItem;
  l_closure : Closure
}.

(** The page's state, its [advanceTimerRef], and the part of the window it
    drives: the pending advance timeouts and media listeners.  Playback
    state of the media elements and [localStorage] are not modelled. *)
Record Runtime : Type := {
  files : list FileItem;
  playlist : list ScheduleItem;
  serverSettings : PlayerSettings;
  activeIndex : nat;
  powered : bool;
  orientation : Orientation;
  brightness : jsnum;
  activeVideoTag : VideoTag;
  advanceTimerRef : option positive;
  timeouts : list Timeout;
  nextHandle : positive;
  loadedListeners : list LoadedListener;
  canplayListeners : list (VideoTag * nat)
}.

Definition with_files (x : list FileItem) (st : Runtime) : Runtime :=
  {| files := x; playlist := playlist st; serverSettings := serverSettings st;
     activeIndex := activeIndex st; powered := powered st;
     orientation := orientation st; brightness := brightness st;
     activeVideoTag := activeVideoTag st;
     advanceTimerRef := advanceTimerRef st; timeouts := timeouts st;
     nextHandle := nextHandle st; loadedListeners := loadedListeners st;
     canplayListeners := canplayListeners st |}.

Definition with_playlist (x : list ScheduleItem) (st : Runtime) : Runtime :=
  {| files := files st; playlist := x; serverSettings := serverSettings st;
     activeIndex := activeIndex st; powered := powered st;
     orientation := orientation st; brightness := brightness st;
     activeVideoTag := activeVideoTag st;
     advanceTimerRef := advanceTimerRef st; timeouts := timeouts st;
     nextHandle := nextHandle st; loadedListeners := loadedListeners st;
     canplayListeners := canplayListeners st |}.

Definition with_serverSettings (x : PlayerSettings) (st : Runtime) : Runtime :=
  {| files := files st; playlist := playlist st; serverSettings := x;
     activeIndex := activeIndex st; powered := powered st;
     orientation := orientation st; brightness := brightness st;
     activeVideoTag := activeVideoTag st;
     advanceTimerRef := advanceTimerRef st; timeouts := timeouts st;
     nextHandle := nextHandle st; loadedListeners := loadedListeners st;
     canplayListeners := canplayListeners st |}.

(** [setActiveIndex]. *)
Definition setActiveIndex (x : nat) (st : Runtime) : Runtime :=
  {| files := files st; playlist := playlist st; serverSettings := serverSettings st;
     activeIndex := x; powered := powered st;
     orientation := orientation st; brightness := brightness st;
     activeVideoTag := activeVideoTag st;
     advanceTimerRef := advanceTimerRef st; timeouts := timeouts st;
     nextHandle := nextHandle st; loadedListeners := loadedListeners st;
     canplayListeners := canplayListeners st |}.

(** [setPowered]. *)
Definition setPowered (x : bool) (st : Runtime) : Runtime :=
  {| files := files st; playlist := playlist st; serverSettings := serverSettings st;
     activeIndex := activeIndex st; powered := x;
     orientation := orientation st; brightness := brightness st;
     activeVideoTag := activeVideoTag st;
     advanceTimerRef := advanceTimerRef st; timeouts := timeouts st;
     nextHandle := nextHandle st; loadedListeners := loadedListeners st;
     canplayListeners := canplayListeners st |}.

(** [setOrientation]. *)
Definition setOrientation (x : Orientation) (st : Runtime) : Runtime :=
  {| files := files st; playlist := playlist st; serverSettings := serverSettings st;
     activeIndex := activeIndex st; powered := powered st;
     orientation := x; brightness := brightness st;
     activeVideoTag := activeVideoTag st;
     advanceTimerRef := advanceTimerRef st; timeouts := timeouts st;
     nextHandle := nextHandle st; loadedListeners := loadedListeners st;
     canplayListeners := canplayListeners st |}.

(** [setBrightness]. *)
Definition setBrightness (x : jsnum) (st : Runtime) : Runtime :=
  {| files := files st; playlist := playlist st; serverSettings := serverSettings st;
     activeIndex := activeIndex st; powered := powered st;
     orientation := orientation st; brightness := x;
     activeVideoTag := activeVideoTag st;
     advanceTimerRef := advanceTimerRef st; timeouts := timeouts st;
     nextHandle := nextHandle st; loadedListeners := loadedListeners st;
     canplayListeners := canplayListeners st |}.

(** [makeActiveIdleSwitch]. *)
Definition makeActiveIdleSwitch (st : Runtime) : Runtime :=
  {| files := files st; playlist := playlist st; serverSettings := serverSettings st;
     activeIndex := activeIndex st; powered := powered st;
     orientation := orientation st; brightness := brightness st;
     activeVideoTag := otherTag (activeVideoTag st);
     advanceTimerRef := advanceTimerRef st; timeouts := timeouts st;
     nextHandle := nextHandle st; loadedListeners := loadedListeners st;
     canplayListeners := canplayListeners st |}.

Definition with_timer (r : option positive) (ts : list Timeout)
  (n : positive) (st : Runtime) : Runtime :=
  {| files := files st; playlist := playlist st; serverSettings := serverSettings st;
     activeIndex := activeIndex st; powered := powered st;
     orientation := orientation st; brightness := brightness st;
     activeVideoTag := activeVideoTag st;
     advanceTimerRef := r; timeouts := ts;
     nextHandle := n; loadedListeners := loadedListeners st;
     canplayListeners := canplayListeners st |}.

Definition with_loadedListeners (x : list LoadedListener) (st : Runtime)
  : Runtime :=
  {| files := files st; playlist := playlist st; serverSettings := serverSettings st;
     activeIndex := activeIndex st; powered := powered st;
     orientation := orientation st; brightness := brightness st;
     activeVideoTag := activeVideoTag st;
     advanceTimerRef := advanceTimerRef st; timeouts := timeouts st;
     nextHandle := nextHandle st; loadedListeners := x;
     canplayListeners := canplayListeners st |}.

Definition with_canplayListeners (x : list (VideoTag * nat)) (st : Runtime)
  : Runtime :=
  {| files := files st; playlist := playlist st; serverSettings := serverSettings st;
     activeIndex := activeIndex st; powered := powered st;
     orientation := orientation st; brightness := brightness st;
     activeVideoTag := activeVideoTag st;
     advanceTimerRef := advanceTimerRef st; timeouts := timeouts st;
     nextHandle := nextHandle st; loadedListeners := loadedListeners st;
     canplayListeners := x |}.

(** The display list of the current render. *)
Definition currentDisplayList (st : Runtime) : list DisplayItem :=
  displayList (playlist st) (files st).

Definition closure_of (st : Runtime) : Closure :=
  {| c_displayList := currentDisplayList st;
     c_activeIndex := activeIndex st;
     c_files := files st;
     c_activeVideoTag := activeVideoTag st |}.

(** [window.clearTimeout(h)]. *)
Definition clearTimeout (h : positive) (ts : list Timeout) : list Timeout :=
  filter (fun t => negb (Pos.eqb (handle t) h)) ts.

(** [clearAdvanceTimer]. *)
Definition clearAdvanceTimer (st : Runtime) : Runtime :=
  match advanceTimerRef st with
  | Some h => with_timer None (clearTimeout h (timeouts st)) (nextHandle st) st
  | None => st
  end.

(** [advanceTimerRef.current = window.setTimeout(advance, ms)], with
    [advance] the function of the render described by [c]. *)
Definition armAdvance (ms : Q) (c : Closure) (st : Runtime) : Runtime :=
  with_timer (Some (nextHandle st))
    (timeouts st ++ [{| handle := nextHandle st; delay := ms; callback := c |}])
    (Pos.succ (nextHandle st)) st.

(** The brightness a page starts with, from what [localStorage] holds
    ([Number(stored || '100')] is [stored]). *)
Definition initialBrightness (stored : jsnum) : jsnum :=
  if isFinite stored then Math_max (JFin 0) (Math_min (JFin 200) stored)
  else JFin 100.

(** The state of the first render. *)
Definition initialRuntime (o : Orientation) (stored : jsnum) : Runtime :=
  {| files := []; playlist := [];
     serverSettings := defaultPlayerSettings;
     activeIndex := 0; powered := true;
     orientation := o; brightness := initialBrightness stored;
     activeVideoTag := TagA;
     advanceTimerRef := None; timeouts := [];
     nextHandle := 1%positive; loadedListeners := [];
     canplayListeners := [] |}.

(** A control message, after [JSON.parse]. *)
Record Message : Type := {
  m_type : string;
  m_action : string;
  m_value : JsValue
}.

Definition isOff (v : JsValue) : bool :=
  match v with JString s => String.eqb s "off" | _ => false end.

Definition isPortrait (v : JsValue) : bool :=
  match v with JString s => String.eqb s "portrait" | _ => false end.

(** [advance], as created in the render [c]; [idle] tells whether there is
    an idle video tag and whether it is ready to render. *)
Definition advance (c : Closure) (idle : option bool) (st : Runtime)
  : Runtime :=
  match c_displayList c with
  | [] => st
  | _ =>
      let nextIdx := ((c_activeIndex c + 1) mod List.length (c_displayList c))%nat in
      let nextFile :=
        match nth_error (c_displayList c) nextIdx with
        | Some nextItem => findFile (item_fileId nextItem) (c_files c)
        | None => None
        end in
      match nextFile with
      | Some f =>
          if isVideo f then
            match idle with
            | Some true => setActiveIndex nextIdx (makeActiveIdleSwitch st)
            | Some false =>
                with_canplayListeners
                  (canplayListeners st ++ [(otherTag (c_activeVideoTag c), nextIdx)]) st
            | None => setActiveIndex nextIdx st
            end
          else setActiveIndex nextIdx st
      | None => setActiveIndex nextIdx st
      end
  end.

(** [goPrev]. *)
Definition goPrev (c : Closure) (idle : option bool) (st : Runtime)
  : Runtime :=
  match c_displayList c with
  | [] => st
  | _ =>
      let len := List.length (c_displayList c) in
      let prevIdx := ((c_activeIndex c + len - 1) mod len)%nat in
      let prevFile :=
        match nth_error (c_displayList c) prevIdx with
        | Some prevItem => findFile (item_fileId prevItem) (c_files c)
        | None => None
        end in
      match prevFile with
      | Some f =>
          if isVideo f then
            match idle with
            | Some true => setActiveIndex prevIdx (makeActiveIdleSwitch st)
            | Some false =>
                with_canplayListeners
                  (canplayListeners st ++ [(otherTag (c_activeVideoTag c), prevIdx)]) st
            | None => setActiveIndex prevIdx st
            end
          else setActiveIndex prevIdx st
      | None => setActiveIndex prevIdx st
      end
  end.

Section Sequencer.
Variable LocalTZA : Z -> Z.
Variable StringToNumber : string -> jsnum.
Variable v : Variant.

(** [setBackup], as created by the media effect for [item] and [file] in
    the render [c]; [duration] is what the video tag reports when it
    runs. *)
Definition setBackup (item : DisplayItem) (file : FileItem) (c : Closure)
  (duration : jsnum) (st : Runtime) : Runtime :=
  armAdvance (backupDelay v item file duration) c (clearAdvanceTimer st).

(** The effect that handles timers when the shown item changes.  [video] is
    the active video tag's [duration], or [None] without such a tag. *)
Definition mediaEffect (video : option jsnum) (st : Runtime)
  : JsResult Runtime :=
  let st := clearAdvanceTimer st in
  if negb (powered st) then Ok st
  else
    match currentDisplayList st with
    | [] => Ok st
    | _ =>
        match nth_error (currentDisplayList st) (activeIndex st) with
        | None => Throw TypeError
        | Some item =>
            match findFile (item_fileId item) (files st) with
            | None => Ok st
            | Some file =>
                if isImage file || isLink file then
                  Ok (armAdvance
                        (imageLinkDelay v (serverSettings st) item file)
                        (closure_of st) st)
                else if isVideo file then
                  match video with
                  | None => Ok st
                  | Some duration =>
                      if durationKnown duration
                      then Ok (setBackup item file (closure_of st) duration st)
                      else
                        Ok (with_loadedListeners
                              (loadedListeners st ++
                               [{| l_tag := activeVideoTag st; l_item := item;
                                   l_file := file; l_closure := closure_of st |}])
                              st)
                  end
                else Ok (armAdvance 10000 (closure_of st) st)
            end
        end
    end.

(** [loadedmetadata] on the tag [tag], which now reports [duration]: its
    [onLoaded] listeners run and remove themselves. *)
Definition onLoadedMetadata (tag : VideoTag) (duration : jsnum)
  (st : Runtime) : Runtime :=
  let mine := filter (fun l => VideoTag_eqb (l_tag l) tag) (loadedListeners st) in
  let others :=
    filter (fun l => negb (VideoTag_eqb (l_tag l) tag)) (loadedListeners st) in
  fold_left
    (fun s l => setBackup (l_item l) (l_file l) (l_closure l) duration s)
    mine (with_loadedListeners others st).

(** [canplay] on the tag [tag]: the [onCanPlay] listeners of [advance] and
    [goPrev] run. *)
Definition onCanPlay (tag : VideoTag) (st : Runtime) : Runtime :=
  let mine := filter (fun l => VideoTag_eqb (fst l) tag) (canplayListeners st) in
  let others :=
    filter (fun l => negb (VideoTag_eqb (fst l) tag)) (canplayListeners st) in
  fold_left
    (fun s l => setActiveIndex (snd l) (makeActiveIdleSwitch s))
    mine (with_canplayListeners others st).

(** The browser runs the timeout [h], if it is still pending. *)
Definition fireTimeout (h : positive) (idle : option bool) (st : Runtime)
  : Runtime :=
  match find (fun t => Pos.eqb (handle t) h) (timeouts st) with
  | Some t =>
      advance (callback t) idle
        (with_timer (advanceTimerRef st) (clearTimeout h (timeouts st))
                    (nextHandle st) st)
  | None => st
  end.

(** [applyCommand], as created in the render [c].  The transport handlers
    are installed by the mount effect, so the [applyCommand] they call is
    the one of the first render.  The actions [set_label] and [stop] touch
    only [localStorage], the socket and the media element, which are not
    part of [Runtime]. *)
Definition applyCommand (c : Closure) (idle : option bool)
  (msg : option Message) (st : Runtime) : Runtime :=
  match msg with
  | None => st
  | Some msg =>
      if negb (String.eqb (m_type msg) "command") then st
      else
        let st :=
          if String.eqb (m_action msg) "power" then
            let turnOn := negb (isOff (m_value msg)) in
            let st := setPowered turnOn st in
            if negb turnOn then clearAdvanceTimer st
            else setActiveIndex (activeIndex st) st
          else st in
        let st :=
          if String.eqb (m_action msg) "orientation" then
            setOrientation (if isPortrait (m_value msg) then Portrait else Landscape) st
          else st in
        let st :=
          if String.eqb (m_action msg) "brightness" then
            setBrightness
              (Math_max (JFin 0)
                 (Math_min (JFin 200) (ToNumber StringToNumber (m_value msg))))
              st
          else st in
        let st :=
          if String.eqb (m_action msg) "next" then advance c idle st else st in
        if String.eqb (m_action msg) "prev" then goPrev c idle st else st
  end.

(** The dependencies of the media effect. *)
Definition depItem (st : Runtime) : option DisplayItem :=
  nth_error (currentDisplayList st) (activeIndex st).

Definition optQ_same (a b : option Q) : bool :=
  match a, b with
  | Some x, Some y => Qeq_bool x y
  | None, None => true
  | _, _ => false
  end.

Definition optString_same (a b : option string) : bool :=
  match a, b with
  | Some x, Some y => String.eqb x y
  | None, None => true
  | _, _ => false
  end.

Definition mediaDepsSame (old new : Runtime) : bool :=
  Nat.eqb (activeIndex old) (activeIndex new)
  && Nat.eqb (List.length (currentDisplayList old))
             (List.length (currentDisplayList new))
  && Bool.eqb (powered old) (powered new)
  && optString_same (option_map item_fileId (depItem old))
                    (option_map item_fileId (depItem new))
  && optQ_same
       (match depItem old with Some i => item_durationSeconds i | None => None end)
       (match depItem new with Some i => item_durationSeconds i | None => None end).


(** The effect that follows [currentFile]: a non-empty display list whose
    current file is gone sends the index back to 0. *)
Definition resetEffect (st : Runtime) : Runtime :=
  match currentFile (currentDisplayList st) (activeIndex st) (files st) with
  | Ok None =>
      match currentDisplayList st with
      | [] => st
      | _ => setActiveIndex 0 st
      end
  | _ => st
  end.

(** [load] has fetched the files, the schedules (the playlist is then
    resolved again, at [Date.now() = now]) or the settings. *)
Definition setFiles (fs : list FileItem) (st : Runtime) : Runtime :=
  with_files fs st.

Definition setSchedules (now : Z) (schedules : list ScheduleItem)
  (st : Runtime) : Runtime :=
  with_playlist (activePlaylist LocalTZA StringToNumber now schedules) st.

(** Everything that can happen to a mounted page and touches the sequencer.
    [EvMediaEffect] may occur at any point, which covers every render after
    which React runs the effect. *)
Inductive Event : Type :=
| EvCommand (c : Closure) (idle : option bool) (msg : option Message)
| EvMediaEffect (video : option jsnum)
| EvLoadedMetadata (tag : VideoTag) (duration : jsnum)
| EvCanPlay (tag : VideoTag)
| EvTimeout (h : positive) (idle : option bool)
| EvEnded (idle : option bool)
| EvSetFiles (fs : list FileItem)
| EvSetSchedules (now : Z) (schedules : list ScheduleItem)
| EvSetSettings (s : PlayerSettings)
| EvResetEffect
| EvUnmount.

(** One event.  An effect that throws takes the page down, which runs the
    unmount cleanup [clearAdvanceTimer]. *)
Definition handleEvent (ev : Event) (st : Runtime) : Runtime :=
  match ev with
  | EvCommand c idle msg => applyCommand c idle msg st
  | EvMediaEffect video =>
      match mediaEffect video st with
      | Ok st' => st'
      | Throw _ => clearAdvanceTimer st
      end
  | EvLoadedMetadata tag duration => onLoadedMetadata tag duration st
  | EvCanPlay tag => onCanPlay tag st
  | EvTimeout h idle => fireTimeout h idle st
  | EvEnded idle => advance (closure_of st) idle st
  | EvSetFiles fs => setFiles fs st
  | EvSetSchedules now schedules => setSchedules now schedules st
  | EvSetSettings s => with_serverSettings s st
  | EvResetEffect => resetEffect st
  | EvUnmount => clearAdvanceTimer st
  end.

Definition run (evs : list Event) (st : Runtime) : Runtime :=
  fold_left (fun s ev => handleEvent ev s) evs st.

(** At most one advance timeout is pending, and it is the one
    [advanceTimerRef] holds. *)
Definition one_timer (st : Runtime) : Prop :=
  timeouts st = [] \/
  exists t, timeouts st = [t] /\ advanceTimerRef st = Some (handle t).
End Sequencer.

End Player.

(* ================================================================== *)
(** ** Login and password routes ([src/app/api/auth/...]) *)
(* ================================================================== *)

Module Auth.

Import Store.

Definition defaultPassword : string := "aiarkp@123".

Definition set_tokens (t : list string) (st : Store) : Store :=
  {| files := files st; schedules := schedules st; tokens := t;
     adminPassword := adminPassword st; playerSettings := playerSettings st |}.

Definition set_adminPassword (p : string) (st : Store) : Store :=
  {| files := files st; schedules := schedules st; tokens := tokens st;
     adminPassword := p; playerSettings := playerSettings st |}.

(** [tokens.add(token)] on the [Set] of tokens. *)
Definition addToken (token : string) (st : Store) : Store :=
  if existsb (String.eqb token) (tokens st) then st
  else set_tokens (tokens st ++ [token]) st.

Section Routes.
(** [s.trim().toLowerCase()]. *)
Variable normalize : string -> string.
(** [process.env.ADMIN_PASSWORD]. *)
Variable envPassword : option string.

(** [store.adminPassword || process.env.ADMIN_PASSWORD || "aiarkp@123"]. *)
Definition expectedPassword (st : Store) : string :=
  if str_truthy (adminPassword st) then adminPassword st
  else
    match envPassword with
    | Some p => if str_truthy p then p else defaultPassword
    | None => defaultPassword
    end.

(** The master keyword test. *)
Definition isMaster (password : string) : bool :=
  String.eqb (normalize password) "anjuman".


(** How [POST /api/auth/password] answers. *)
Inductive PasswordReply : Type :=
| Unauthorized
| WasReset
| InvalidCurrent
| TooShort
| Changed.

(** [POST /api/auth/password]; a missing property of the body is the empty
    string. *)
Definition POST_password (header : option string)
  (oldPassword newPassword : string) (st : Store) : PasswordReply * Store :=
  if negb (auth header st) then (Unauthorized, st)
  else if isMaster oldPassword
  then (WasReset, set_adminPassword defaultPassword st)
  else if negb (str_truthy oldPassword)
          || negb (String.eqb oldPassword (expectedPassword st))
  then (InvalidCurrent, st)
  else if negb (str_truthy newPassword) || (String.length newPassword <? 4)%nat
  then (TooShort, st)
  else (Changed, set_adminPassword newPassword st).
End Routes.

End Auth.

(* ================================================================== *)
(** ** Streaming a file ([src/app/api/files/stream/[id]/route.ts]) *)
(* ================================================================== *)

Module Stream.

Import Store.

Definition isDigit (c : ascii) : bool :=
  match digit_value c with Some _ => true | None => false end.

(** The longest run of digits at the head of [s], and what follows it. *)
Fixpoint takeDigits (s : string) : string * string :=
  match s with
  | EmptyString => (EmptyString, EmptyString)
  | String c s' =>
      if isDigit c then
        let '(d, rest) := takeDigits s' in (String c d, rest)
      else (EmptyString, s)
  end.

(** The range pattern (the text bytes=, digits, a dash, digits) anchored at
    the head of [s]: its two groups of digits. *)
Definition matchRangeHere (s : string) : option (string * string) :=
  if String.prefix "bytes=" s then
    let '(g1, rest) := takeDigits (String.substring 6 (String.length s - 6) s) in
    match rest with
    | String c rest' =>
        if Ascii.eqb c "-"%char then Some (g1, fst (takeDigits rest')) else None
    | EmptyString => None
    end
  else None.

(** The pattern's [exec(range)]: the leftmost match. *)
Fixpoint matchRange (s : string) : option (string * string) :=
  match matchRangeHere s with
  | Some m => Some m
  | None =>
      match s with
      | EmptyString => None
      | String _ s' => matchRange s'
      end
  end.

(** [parseInt(g, 10)] on a non-empty string of digits. *)
Definition parseDigits (g : string) : Z :=
  match digits_value 0 g with Some z => z | None => 0%Z end.

Inductive StreamReply : Type :=
| NotFound
| MissingFile
| RangeNotSatisfiable (fileSize : Z)
| PartialContent (start end_ fileSize : Z) (mime : string)
| FullContent (fileSize : Z) (mime : string).

(** The [start] and [end] the route computes from a [Range] header. *)
Definition rangeBounds (range : string) (fileSize : Z) : Z * Z :=
  let end0 := (fileSize - 1)%Z in
  match matchRange range with
  | Some (g1, g2) =>
      let start :=
        if str_truthy g1 then Z.min (parseDigits g1) end0 else 0%Z in
      let end_ :=
        if str_truthy g2 then Z.min (parseDigits g2) end0 else end0 in
      (start, end_)
  | None => (0%Z, end0)
  end.

(** [GET /api/files/stream/[id]]; [stat] gives the size of the file at a
    path, if it exists. *)
Definition GET_stream (id : string) (stat : string -> option Z)
  (range : option string) (st : Store) : StreamReply :=
  match map_get id (files st) with
  | None => NotFound
  | Some item =>
      match stat (f_path item) with
      | None => MissingFile
      | Some fileSize =>
          match range with
          | Some r =>
              if str_truthy r then
                let '(start, end_) := rangeBounds r fileSize in
                if (end_ <? start)%Z || (start <? 0)%Z || (fileSize <=? end_)%Z
                then RangeNotSatisfiable fileSize
                else PartialContent start end_ fileSize (f_mime item)
              else FullContent fileSize (f_mime item)
          | None => FullContent fileSize (f_mime item)
          end
      end
  end.

End Stream.

(* ================================================================== *)
(** ** Adding files and links ([POST /api/files]) *)
(* ================================================================== *)

Module Files.

Import Store.

(** ASCII lower case of a code unit; strings are read as sequences of code
    units below 256. *)
Definition lowerAscii (c : ascii) : ascii :=
  let n := nat_of_ascii c in
  if ((65 <=? n) && (n <=? 90))%nat then ascii_of_nat (n + 32) else c.

Fixpoint lowerString (s : string) : string :=
  match s with
  | EmptyString => EmptyString
  | String c s' => String (lowerAscii c) (lowerString s')
  end.

(** The test for an http or https scheme at the head of the URL, letters in
    either case. *)
Definition isHttpUrl (url : string) : bool :=
  String.prefix "http://" (lowerString url)
  || String.prefix "https://" (lowerString url).

(** A code unit the upload's file name may keep: a letter, a digit, a dot,
    an underscore or a dash. *)
Definition keptInName (c : ascii) : bool :=
  let n := nat_of_ascii c in
  ((97 <=? n) && (n <=? 122) || (65 <=? n) && (n <=? 90)
   || (48 <=? n) && (n <=? 57) || (n =? 46) || (n =? 95) || (n =? 45))%nat.

(** [name.replace(pattern, "_")] with the pattern of every other code
    unit. *)
Fixpoint sanitizeName (s : string) : string :=
  match s with
  | EmptyString => EmptyString
  | String c s' =>
      String (if keptInName c then c else "_"%char) (sanitizeName s')
  end.

Definition maxUploadBytes : Z := 100 * 1024 * 1024.

(** The uploaded [File]: name, size, type, and whether its bytes can be
    read. *)
Record Upload : Type := {
  u_name : string;
  u_size : Z;
  u_type : string;
  u_readable : bool
}.

(** The request, by the branch of the route it takes: a JSON body (parsed,
    or not parsable), or form data (not parsable, or with its [url],
    [name], [durationSeconds] and [file] fields, each of which may be
    missing). *)
Inductive Request : Type :=
| JsonLink (url name : option string) (durationSeconds : jsnum)
| JsonInvalid
| FormInvalid
| FormData (url name : option string) (durationSeconds : jsnum)
           (file : option Upload).

Section Route.
(** [s.trim()], [encodeURIComponent] and the disk path of a file name
    ([path.join] under the uploads directory). *)
Variable trim : string -> string.
Variable encodeURIComponent : string -> string.
Variable diskPathFor : string -> Storage -> string.

(** [publicUrlFor]. *)
Definition publicUrlFor (fileName : string) (storage : Storage) (id : string)
  : string :=
  match storage with
  | External => EmptyString
  | Public => ("/uploads/" ++ encodeURIComponent fileName)%string
  | Tmp => ("/api/files/stream/" ++ id)%string
  end.

(** The link item both link branches build. *)
Definition linkItem (id fileName url : string) (now : Z) (dur : jsnum)
  : FileItem :=
  {| f_id := id; f_name := fileName; f_mime := "link/external"; f_size := 0;
     f_storage := External; f_path := EmptyString; f_url := url;
     f_uploadedAt := now;
     f_durationSeconds :=
       match dur with
       | JFin q => if negb (Qle_bool q 0) then Some q else None
       | _ => None
       end |}.

(** [POST /api/files].  [now] is [Date.now()], [stamp] its decimal text,
    [genId] the generated identifier, [storage] what [resolveStorage]
    answers and [written] whether the file could be written to disk. *)
Definition POST_files (header : option string) (req : Request)
  (now : Z) (stamp genId : string) (storage : Storage) (written : bool)
  (st : Store) : (Z * option FileItem) * Store :=
  if negb (auth header st) then ((401%Z, None), st)
  else
    match req with
    | JsonInvalid => ((400%Z, None), st)
    | JsonLink url name dur =>
        match url with
        | None => ((400%Z, None), st)
        | Some url =>
            if negb (str_truthy url) then ((400%Z, None), st)
            else if negb (isHttpUrl url) then ((400%Z, None), st)
            else
              let trimmed := match name with Some n => trim n | None => EmptyString end in
              let fileName := if str_truthy trimmed then trimmed else url in
              let item := linkItem genId fileName url now dur in
              ((200%Z, Some item), addFile item st)
        end
    | FormInvalid => ((400%Z, None), st)
    | FormData url name dur file =>
        if optstr_truthy url then
          let url := match url with Some u => u | None => EmptyString end in
          if negb (isHttpUrl url) then ((400%Z, None), st)
          else
            let trimmed := match name with Some n => trim n | None => EmptyString end in
            let fileName := if str_truthy trimmed then trimmed else url in
            let item := linkItem genId fileName url now dur in
            ((200%Z, Some item), addFile item st)
        else
          match file with
          | None => ((400%Z, None), st)
          | Some file =>
              let type := if str_truthy (u_type file) then u_type file
                          else "application/octet-stream"%string in
              if (maxUploadBytes <? u_size file)%Z then ((400%Z, None), st)
              else if negb (String.prefix "image/" type
                            || String.prefix "video/" type)
              then ((400%Z, None), st)
              else if negb (u_readable file) then ((400%Z, None), st)
              else
                let fileName := (stamp ++ "-" ++ sanitizeName (u_name file))%string in
                let diskPath := diskPathFor fileName storage in
                if negb written then ((500%Z, None), st)
                else
                  let item :=
                    {| f_id := genId; f_name := fileName; f_mime := type;
                       f_size := u_size file; f_storage := storage;
                       f_path := diskPath;
                       f_url := publicUrlFor fileName storage genId;
                       f_uploadedAt := now; f_durationSeconds := None |} in
                  ((200%Z, Some item), addFile item st)
          end
    end.
End Route.

End Files.

(* ================================================================== *)
(** ** The registry of players seen over HTTP ([/api/players]) *)
(* ================================================================== *)

Module Players.

Record PlayerState : Type := {
  key : string;
  name : string;
  ua : string;
  connectedAt : Z;
  lastSeen : Z
}.

(** An entry of the list [GET /api/players] answers. *)
Record Listed : Type := {
  ls_name : string;
  ls_ua : string;
  ls_connectedAt : Z;
  ls_lastSeen : Z
}.

Definition ACTIVE_WINDOW : Z := 40000.

Section Route.
Variable trim : string -> string.
Variable toLowerCase : string -> string.

(** [POST /api/players]: the heartbeat of a player without a socket. *)
Definition POST (rawName rawUa : option string) (now : Z)
  (httpStates : JsMap PlayerState) : JsMap PlayerState :=
  let sliced :=
    match rawName with
    | Some n => String.substring 0 64 n
    | None => EmptyString
    end in
  let nameTrim := trim sliced in
  let agent :=
    String.substring 0 256
      (match rawUa with Some u => u | None => EmptyString end) in
  if negb (str_truthy nameTrim)
     || String.eqb (toLowerCase nameTrim) "player"
  then httpStates
  else
    let k := (nameTrim ++ "|" ++ agent)%string in
    match map_get k httpStates with
    | Some prev =>
        map_set k
          {| key := key prev; name := name prev; ua := ua prev;
             connectedAt := connectedAt prev; lastSeen := now |}
          httpStates
    | None =>
        map_set k
          {| key := k; name := nameTrim; ua := agent;
             connectedAt := now; lastSeen := now |}
          httpStates
    end.

(** The filter of [GET]: seen within the window, and a name that is not the
    placeholder. *)
Definition isActive (now : Z) (s : PlayerState) : bool :=
  (now - lastSeen s <=? ACTIVE_WINDOW)%Z
  && str_truthy (name s)
  && negb (String.eqb (toLowerCase (trim (name s))) "player").

Definition listed (s : PlayerState) : Listed :=
  {| ls_name := trim (name s);
     ls_ua := ua s;
     ls_connectedAt := connectedAt s;
     ls_lastSeen := lastSeen s |}.

(** [GET /api/players]; [wsStates] are the states the socket route keeps,
    when there are any. *)
Definition GET (wsStates : option (list PlayerState)) (now : Z)
  (httpStates : JsMap PlayerState) : list Listed :=
  let wsPlayers :=
    match wsStates with
    | Some states => map listed (filter (isActive now) states)
    | None => []
    end in
  let httpPlayers := map listed (filter (isActive now) (map_values httpStates)) in
  array_sort (fun a b => (ls_lastSeen b - ls_lastSeen a)%Z)
             (wsPlayers ++ httpPlayers).
End Route.

End Players.

(* ================================================================== *)
(** ** The player's transport: reconnection and command polling *)
(* ================================================================== *)

Module Transport.

Import Player.

(** What changes [reconnectDelay]: the reconnect timer fires (the delay
    doubles, up to 30 seconds, before the page connects again), or a socket
    opens (the delay starts over). *)
Inductive ConnEvent : Type :=
| RetryTimerFired
| SocketOpened.

Definition initialDelay : Z := 1000.
Definition maxDelay : Z := 30000.

Definition backoffStep (delay : Z) (ev : ConnEvent) : Z :=
  match ev with
  | RetryTimerFired => Z.min (delay * 2) maxDelay
  | SocketOpened => initialDelay
  end.

(** [reconnectDelay] after a sequence of events, from the page's mount. *)
Definition reconnectDelay (evs : list ConnEvent) : Z :=
  fold_left backoffStep evs initialDelay.

Section Polling.
Variable StringToNumber : string -> jsnum.
(** [String(n)] on a timestamp. *)
Variable numberToString : Z -> string.

(** The commands of a response that the polling loop applies: those with a
    truthy payload. *)
Definition applicable (c : Commands.Command (option Message)) : bool :=
  match Commands.payload c with Some _ => true | None => false end.

(** One tick of the polling loop while the socket is down: fetch the
    commands since the last applied timestamp, apply them in order with the
    [applyCommand] of the render [c], and move the timestamp to the newest
    applied one.  The result is the page's state and [lastCmdTsRef]. *)
Definition pollOnce (c : Closure) (idle : option bool) (now : Z)
  (lastCmdTs : Z) (queue : list (Commands.Command (option Message)))
  (st : Runtime) : Runtime * Z :=
  let since := if (lastCmdTs =? 0)%Z then now else lastCmdTs in
  let commands :=
    Commands.GET StringToNumber (Some (numberToString since)) queue in
  let '(st', maxTs) :=
    fold_left
      (fun acc cmd =>
         match Commands.payload cmd with
         | Some msg =>
             (applyCommand StringToNumber c idle (Some msg) (fst acc),
              if (snd acc <? Commands.ts cmd)%Z then Commands.ts cmd else snd acc)
         | None => acc
         end)
      commands (st, since) in
  (st', if (since <? maxTs)%Z then maxTs else lastCmdTs).
End Polling.

(** The decimal text of an integer. *)
Definition decimalString (z : Z) : string :=
  NilZero.string_of_int (Z.to_int z).

Section Commit.
Variable v : Variant.

(** The browser runs the timeout [h]: [advance] runs, the page renders
    again ([currentFile] is computed again when the index changed), and the
    media effect runs when one of its dependencies changed. *)
Definition timeoutFires (h : positive) (idle : option bool)
  (video : option jsnum) (st : Runtime) : JsResult Runtime :=
  let st' := fireTimeout h idle st in
  let rendered :=
    if Nat.eqb (activeIndex st) (activeIndex st') then Ok None
    else currentFile (currentDisplayList st') (activeIndex st') (files st') in
  match rendered with
  | Throw e => Throw e
  | Ok _ => if mediaDepsSame st st' then Ok st' else mediaEffect v video st'
  end.
End Commit.

End Transport.

(* ================================================================== *)
(** ** The admin page's prediction of what plays ([src/app/admin/page.tsx]) *)
(* ================================================================== *)

Module Admin.

Import Store.

(** [predictedNowPlaying], from the admin's own [activePlaylist] and
    files. *)
Definition predictedNowPlaying (playlist : list ScheduleItem)
  (files : list FileItem) : option FileItem :=
  match playlist with
  | item :: _ => Player.findFile (s_fileId item) files
  | [] => hd_error files
  end.

End Admin.

(* ================================================================== *)
(** ** Predicates and sample data used by the properties *)
(* ================================================================== *)

(** [x] may stand before [y] for the comparator [cmp]. *)
Definition before (A : Type) (cmp : A -> A -> Z) (x y : A) : Prop :=
  (cmp x y <= 0)%Z.

(** No timeout is pending and the ref is empty. *)
Definition cleared (st : Player.Runtime) : Prop :=
  Player.timeouts st = [] /\ Player.advanceTimerRef st = None.

(** Two states with the same timer: same ref and same pending timeouts. *)
Definition same_timer (st st' : Player.Runtime) : Prop :=
  Player.timeouts st' = Player.timeouts st /\
  Player.advanceTimerRef st' = Player.advanceTimerRef st.

(** A brightness in the range the page accepts. *)
Definition validBrightness (b : jsnum) : Prop :=
  js_le (JFin 0) b = true /\ js_le b (JFin 200) = true.

(** The time zone of the examples. *)
Definition utc (_ : Z) : Z := 0%Z.

Definition olderFile : Store.FileItem :=
  {| Store.f_id := "f1"; Store.f_name := "a.png"; Store.f_mime := "image/png";
     Store.f_size := 10; Store.f_storage := Store.Public;
     Store.f_path := "/var/lib/signage/uploads/a.png";
     Store.f_url := "/uploads/a.png"; Store.f_uploadedAt := 1000;
     Store.f_durationSeconds := None |}.

Definition newerFile : Store.FileItem :=
  {| Store.f_id := "f2"; Store.f_name := "b.png"; Store.f_mime := "image/png";
     Store.f_size := 10; Store.f_storage := Store.Public;
     Store.f_path := "/var/lib/signage/uploads/b.png";
     Store.f_url := "/uploads/b.png"; Store.f_uploadedAt := 2000;
     Store.f_durationSeconds := None |}.

Definition thirdFile : Store.FileItem :=
  {| Store.f_id := "f3"; Store.f_name := "c.png"; Store.f_mime := "image/png";
     Store.f_size := 10; Store.f_storage := Store.Public;
     Store.f_path := "/var/lib/signage/uploads/c.png";
     Store.f_url := "/uploads/c.png"; Store.f_uploadedAt := 3000;
     Store.f_durationSeconds := None |}.

Definition demoVideo : Store.FileItem :=
  {| Store.f_id := "v1"; Store.f_name := "clip.mp4"; Store.f_mime := "video/mp4";
     Store.f_size := 10; Store.f_storage := Store.Public;
     Store.f_path := "/var/lib/signage/uploads/clip.mp4";
     Store.f_url := "/uploads/clip.mp4"; Store.f_uploadedAt := 1000;
     Store.f_durationSeconds := None |}.

Definition twoFiles : Store.Store :=
  Store.addFile newerFile (Store.addFile olderFile (Store.emptyStore "pw")).

Definition threeFiles : Store.Store := Store.addFile thirdFile twoFiles.

(** A rule for [olderFile]. *)
Definition demoRule : Store.ScheduleItem :=
  {| Store.s_id := "s1"; Store.s_fileId := "f1"; Store.s_startAt := 0;
     Store.s_endAt := 5000; Store.s_order := 0; Store.s_days := None;
     Store.s_startTime := None; Store.s_endTime := None;
     Store.s_durationSeconds := None; Store.s_muted := None |}.

Definition demoStore : Store.Store :=
  Store.addSchedule demoRule (Store.addFile olderFile (Store.emptyStore "pw")).


Definition demoQueue : list (Commands.Command string) :=
  [ {| Commands.ts := 100; Commands.payload := "a"%string |};
    {| Commands.ts := 200; Commands.payload := "b"%string |};
    {| Commands.ts := 300; Commands.payload := "c"%string |} ].

Definition powerOff : option Player.Message :=
  Some {| Player.m_type := "command"; Player.m_action := "power";
          Player.m_value := JString "off" |}.

Definition powerOn : option Player.Message :=
  Some {| Player.m_type := "command"; Player.m_action := "power";
          Player.m_value := JString "on" |}.

(** A page showing [files] in fallback mode, at index [i]. *)
Definition showing (files : list Store.FileItem) (i : nat)
  (settings : Store.PlayerSettings) (on : bool) : Player.Runtime :=
  {| Player.files := files; Player.playlist := [];
     Player.serverSettings := settings;
     Player.activeIndex := i; Player.powered := on;
     Player.orientation := Store.Landscape; Player.brightness := JFin 100;
     Player.activeVideoTag := Player.TagA;
     Player.advanceTimerRef := None; Player.timeouts := [];
     Player.nextHandle := 1%positive; Player.loadedListeners := [];
     Player.canplayListeners := [] |}.

(** The settings after the admin sets the default image duration to 20. *)
Definition twentySeconds : Store.PlayerSettings :=
  Store.spread Store.defaultPlayerSettings
    {| Store.p_brightness := None; Store.p_orientation := None;
       Store.p_autoStart := None;
       Store.p_defaultImageDuration := Some 20%Q;
       Store.p_defaultLinkDuration := None |}.

Definition brightnessWithoutValue : option Player.Message :=
  Some {| Player.m_type := "command"; Player.m_action := "brightness";
          Player.m_value := JUndefined |}.

(** A rule for the examples, active around 14 November 2023. *)
Definition ruleWith (id : string) (order : Z) (days : option (list Z))
  (startTime endTime : option string) : Store.ScheduleItem :=
  {| Store.s_id := id; Store.s_fileId := "f1";
     Store.s_startAt := 1699999000000; Store.s_endAt := 1700003600000;
     Store.s_order := order; Store.s_days := days;
     Store.s_startTime := startTime; Store.s_endTime := endTime;
     Store.s_durationSeconds := None; Store.s_muted := None |}.

(** The keys of a map are unique, as in every [Map]. *)
Definition unique_keys (V : Type) (m : JsMap V) : Prop := NoDup (map fst m).

(** Every file is stored under its own id. *)
Definition keyed_by_id (st : Store.Store) : Prop :=
  forall k f, In (k, f) (Store.files st) -> Store.f_id f = k.


(** Every code unit of [s] passes [p]. *)
Fixpoint allChars (p : ascii -> bool) (s : string) : bool :=
  match s with
  | EmptyString => true
  | String c s' => p c && allChars p s'
  end.

(** A header that carries none of the store's tokens. *)
Definition carriesNoToken (header : option string) (st : Store.Store) : Prop :=
  forall t, In t (Store.tokens st) -> header <> Some ("Bearer " ++ t)%string.

(** [k] calls of [advance], each with the closure of the render it runs
    in. *)
Fixpoint advanceTimes (k : nat) (idle : option bool) (st : Player.Runtime)
  : Player.Runtime :=
  match k with
  | O => st
  | S k' =>
      let st' := advanceTimes k' idle st in
      Player.advance (Player.closure_of st') idle st'
  end.

(** A store with one image on disk, for the examples. *)
Definition oneImageStore : Store.Store :=
  Store.addFile olderFile (Store.emptyStore "pw").

(** A store where the token ["t0"] was handed out. *)
Definition loggedInStore : Store.Store :=
  Auth.addToken "t0" demoStore.

(** An external link, and a store that holds it after a login. *)
Definition linkFile : Store.FileItem :=
  {| Store.f_id := "l1"; Store.f_name := "news"; Store.f_mime := "link/external";
     Store.f_size := 0; Store.f_storage := Store.External;
     Store.f_path := ""; Store.f_url := "https://example.org/";
     Store.f_uploadedAt := 3000; Store.f_durationSeconds := None |}.

Definition linkStore : Store.Store :=
  Auth.addToken "t0" (Store.addFile linkFile (Store.emptyStore "pw")).

(** A request to schedule the link, with a negative duration. *)
Definition linkBody : Store.ScheduleBody :=
  {| Store.b_id := None; Store.b_fileId := Some "l1"%string;
     Store.b_startAt := Some 1000%Z; Store.b_endAt := None;
     Store.b_order := None; Store.b_days := Some [1; 7; 3]%Z;
     Store.b_startTime := None; Store.b_endTime := None;
     Store.b_durationSeconds := JFin (-5); Store.b_muted := None |}.

(** A queue of control messages. *)
Definition messageQueue : list (Commands.Command (option Player.Message)) :=
  [ {| Commands.ts := 100; Commands.payload := powerOff |};
    {| Commands.ts := 200; Commands.payload := None |};
    {| Commands.ts := 300; Commands.payload := powerOn |} ].

(** The loop of [pollOnce] over the fetched commands. *)
Definition pollLoop (StringToNumber : string -> jsnum) (c : Player.Closure)
  (idle : option bool)
  (commands : list (Commands.Command (option Player.Message)))
  (acc : Player.Runtime * Z) : Player.Runtime * Z :=
  fold_left
    (fun acc cmd =>
       match Commands.payload cmd with
       | Some msg =>
           (Player.applyCommand StringToNumber c idle (Some msg) (fst acc),
            if (snd acc <? Commands.ts cmd)%Z then Commands.ts cmd else snd acc)
       | None => acc
       end)
    commands acc.





(** A page showing a single image, with its timeout pending. *)
Definition singleImage : Player.Runtime :=
  Player.armAdvance 10000
    (Player.closure_of (showing [olderFile] 0 Store.defaultPlayerSettings true))
    (showing [olderFile] 0 Store.defaultPlayerSettings true).

(* ================================================================== *)
(** * Properties *)
(* ================================================================== *)

(** ** Stable sorting *)

Section StableSortFacts.
Variable A : Type.
Variable cmp : A -> A -> Z.

Lemma insert_sorted_perm (x : A) (l : list A) :
  Permutation (x :: l) (insert_sorted cmp x l).
Proof.
  induction l as [|y l IH]; simpl.
  - apply Permutation_refl.
  - destruct (cmp x y <=? 0)%Z.
    + apply Permutation_refl.
    + eapply Permutation_trans; [apply perm_swap|].
      now apply perm_skip.
Qed.

Lemma array_sort_perm (l : list A) : Permutation l (array_sort cmp l).
Proof.
  induction l as [|x l IH]; simpl.
  - constructor.
  - eapply Permutation_trans; [|apply insert_sorted_perm].
    now apply perm_skip.
Qed.

Lemma array_sort_In (x : A) (l : list A) :
  In x (array_sort cmp l) <-> In x l.
Proof.
  split; intro H.
  - eapply Permutation_in; [apply Permutation_sym, array_sort_perm|exact H].
  - eapply Permutation_in; [apply array_sort_perm|exact H].
Qed.

Lemma array_sort_length (l : list A) :
  List.length (array_sort cmp l) = List.length l.
Proof. symmetry. apply Permutation_length, array_sort_perm. Qed.

Lemma array_sort_nil (l : list A) : array_sort cmp l = [] <-> l = [].
Proof.
  split; intro H.
  - apply length_zero_iff_nil. rewrite <- array_sort_length, H. reflexivity.
  - subst. reflexivity.
Qed.

(** With a comparator that is total and transitive the result is sorted. *)
Hypothesis cmp_total : forall x y, (0 < cmp x y -> cmp y x <= 0)%Z.
Hypothesis cmp_trans :
  forall x y z, (cmp x y <= 0 -> cmp y z <= 0 -> cmp x z <= 0)%Z.

Lemma insert_sorted_sorted (x : A) (l : list A) :
  StronglySorted (before cmp) l ->
  StronglySorted (before cmp) (insert_sorted cmp x l).
Proof.
  induction 1 as [|y l Hs IH Hall]; simpl.
  - constructor; constructor.
  - destruct (Z.leb_spec (cmp x y) 0) as [Hle|Hgt].
    + constructor.
      * constructor; assumption.
      * constructor; [exact Hle|].
        rewrite Forall_forall in *. intros z Hz.
        eapply cmp_trans; [exact Hle|]. now apply Hall.
    + constructor; [exact IH|].
      rewrite Forall_forall in *. intros z Hz.
      apply (Permutation_in _ (Permutation_sym (insert_sorted_perm x l))) in Hz.
      destruct Hz as [<-|Hz].
      * now apply cmp_total.
      * now apply Hall.
Qed.

Lemma array_sort_sorted (l : list A) :
  StronglySorted (before cmp) (array_sort cmp l).
Proof.
  induction l as [|x l IH]; simpl.
  - constructor.
  - now apply insert_sorted_sorted.
Qed.
End StableSortFacts.

(** ** Insertion-ordered maps *)

Section JsMapFacts.
Variable V : Type.
Implicit Types (m : JsMap V) (k : string) (v : V).

Lemma map_has_set k k' v m :
  map_has k (map_set k' v m) = String.eqb k k' || map_has k m.
Proof.
  unfold map_has.
  induction m as [|[k0 v0] m IH]; simpl.
  - destruct (String.eqb k k'); reflexivity.
  - destruct (String.eqb_spec k' k0) as [->|Hne]; simpl.
    + destruct (String.eqb k k0); reflexivity.
    + destruct (String.eqb_spec k k0) as [->|Hne'].
      * now rewrite orb_true_r.
      * exact IH.
Qed.

Lemma map_has_delete k k' m :
  map_has k (map_delete k' m) = negb (String.eqb k k') && map_has k m.
Proof.
  unfold map_has, map_delete.
  induction m as [|[k0 v0] m IH]; simpl.
  - now rewrite andb_false_r.
  - destruct (String.eqb_spec k0 k') as [->|Hne]; simpl.
    + rewrite IH. destruct (String.eqb_spec k k') as [->|Hne']; simpl;
        [reflexivity|].
      reflexivity.
    + destruct (String.eqb_spec k k0) as [->|Hne'].
      * destruct (String.eqb_spec k0 k'); [contradiction|reflexivity].
      * exact IH.
Qed.


End JsMapFacts.

(** ** The store: schedules refer to files *)

Section StoreFacts.
Import Store.


(** [removeFile] deletes exactly the schedules of the removed file. *)
Lemma removeFile_cascade id st k s :
  map_has id (files st) = true ->
  (In (k, s) (schedules (snd (removeFile id st))) <->
   In (k, s) (schedules st) /\ s_fileId s <> id).
Proof.
  intro Hhas. unfold removeFile. rewrite Hhas. simpl.
  rewrite filter_In. simpl.
  destruct (String.eqb_spec (s_fileId s) id); simpl; intuition congruence.
Qed.




(** The schedule route answers 400 and leaves the store alone when the
    file is not in the registry. *)
Lemma POST_schedule_rejects header body now genId st fileId :
  auth header st = true ->
  b_fileId body = Some fileId ->
  map_has fileId (files st) = false ->
  POST_schedule header body now genId st
  = ({| status := 400; created := None |}, st).
Proof.
  intros Ha Hb Hm. unfold POST_schedule. rewrite Ha, Hb, Hm. simpl.
  now rewrite orb_true_r.
Qed.






(** Every snapshot [saveStoreToDisk] writes can be loaded safely. *)
Lemma saved_snapshot_consistent existsSync st :
  load_consistent (OpLoad existsSync (Some (saveStoreToDisk st))).
Proof. right. discriminate. Qed.



Lemma refs_ok_demoStore : refs_ok demoStore.
Proof.
  intros k s Hin. simpl in Hin.
  destruct Hin as [Hin|[]]. inversion Hin. reflexivity.
Defined.


End StoreFacts.

(** ** The command queue *)

Section QueueFacts.
Import Commands.
Variable Payload : Type.
Variable StringToNumber : string -> jsnum.

Lemma POST_length (body : Body Payload) (now : Z) (commands : list (Command Payload)) :
  (List.length (snd (POST (Some body) now commands)) <= 200)%nat.
Proof.
  unfold POST; simpl.
  destruct (Nat.ltb_spec 200
              (List.length (commands ++ [{| ts := now; payload :=
                   match body with Wrapped d => d | Plain p => p end |}])))
    as [Hlt|Hle].
  - rewrite length_skipn. lia.
  - exact Hle.
Qed.

(** Trimming removes from the front: what is kept is a suffix of the queue
    with the new command pushed. *)
Lemma POST_keeps_newest (body : Body Payload) (now : Z)
  (commands : list (Command Payload)) :
  exists dropped,
    commands ++ [{| ts := now;
                    payload := match body with Wrapped d => d | Plain p => p end |}]
    = dropped ++ snd (POST (Some body) now commands).
Proof.
  unfold POST; simpl.
  match goal with |- context [if ?b then _ else _] => destruct b end.
  - eexists. symmetry. apply firstn_skipn.
  - exists []. reflexivity.
Qed.

Lemma serve_length (requests : list (option (Body Payload) * Z)) :
  (List.length (serve requests) <= 200)%nat.
Proof.
  unfold serve.
  assert (G : forall q, (List.length q <= 200)%nat ->
                        (List.length
                           (fold_left (fun q r => snd (POST (fst r) (snd r) q))
                                      requests q) <= 200)%nat).
  { induction requests as [|[body now] requests IH]; intros q Hq; simpl.
    - exact Hq.
    - apply IH. destruct body as [b|]; [apply POST_length|exact Hq]. }
  apply G. simpl. lia.
Qed.

Lemma js_gt_of_Z (a b : Z) : js_gt (of_Z a) (of_Z b) = (b <? a)%Z.
Proof.
  unfold js_gt, js_lt, of_Z.
  destruct (Z.ltb_spec b a) as [H|H].
  - apply negb_true_iff.
    destruct (Qle_bool (inject_Z a) (inject_Z b)) eqn:E; [|reflexivity].
    apply Qle_bool_iff in E. rewrite <- Zle_Qle in E. lia.
  - apply negb_false_iff. apply Qle_bool_iff. rewrite <- Zle_Qle. exact H.
Qed.

(** C10.  Whatever POST requests were served, the queue holds at most 200
    commands, a POST keeps the newest ones, and a GET whose [since]
    parameter is the positive instant [t] answers exactly the queued
    commands with [ts > t]: a command stamped [t] itself is not in it. *)
Theorem command_queue_bounded_and_strict
  (requests : list (option (Body Payload) * Z))
  (body : Body Payload) (now : Z) (commands : list (Command Payload))
  (s : string) (t : Z) :
  str_truthy s = true -> StringToNumber s = of_Z t -> (0 < t)%Z ->
  (List.length (serve requests) <= 200)%nat /\
  (List.length (snd (POST (Some body) now commands)) <= 200)%nat /\
  (exists dropped,
      commands ++ [{| ts := now;
                      payload := match body with Wrapped d => d | Plain p => p end |}]
      = dropped ++ snd (POST (Some body) now commands)) /\
  GET StringToNumber (Some s) commands
  = filter (fun c => (t <? ts c)%Z) commands /\
  (forall c, In c (GET StringToNumber (Some s) commands) -> ts c <> t).
Proof.
  intros Hs Hn Ht.
  assert (Hget : GET StringToNumber (Some s) commands
                 = filter (fun c => (t <? ts c)%Z) commands).
  { unfold GET. rewrite Hs, Hn.
    change (JFin 0) with (of_Z 0). rewrite js_gt_of_Z.
    destruct (Z.ltb_spec 0 t) as [_|Hle]; [|lia].
    apply filter_ext. intro c. apply js_gt_of_Z. }
  repeat split.
  - apply serve_length.
  - apply POST_length.
  - apply POST_keeps_newest.
  - exact Hget.
  - intros c Hin. rewrite Hget in Hin. apply filter_In in Hin.
    destruct Hin as [_ Hlt]. apply Z.ltb_lt in Hlt. lia.
Qed.

End QueueFacts.

Lemma command_queue_bounded_and_strict_witness :
  Js.str_truthy "200" = true /\
  Js.decimalToNumber "200" = Js.of_Z 200 /\
  (0 < 200)%Z /\
  Commands.GET Js.decimalToNumber (Some "200"%string) demoQueue
  = [ {| Commands.ts := 300; Commands.payload := "c"%string |} ].
Proof.
  split; [reflexivity|]. split; [reflexivity|]. split; [lia|].
  destruct (@command_queue_bounded_and_strict string Js.decimalToNumber
              [] (Commands.Plain "x"%string) 400%Z demoQueue "200"%string 200%Z
              eq_refl eq_refl eq_refl)
    as (_ & _ & _ & Hget & _).
  rewrite Hget. reflexivity.
Defined.

(** ** Playlist resolution *)

Section ResolverFacts.
Import Store Player.
Variable LocalTZA : Z -> Z.
Variable StringToNumber : string -> jsnum.

Lemma existsb_Zeqb (d : Z) (l : list Z) : existsb (Z.eqb d) l = true <-> In d l.
Proof.
  rewrite existsb_exists. split.
  - intros (x & Hin & Heq). apply Z.eqb_eq in Heq. now subst.
  - intro Hin. exists d. split; [exact Hin|apply Z.eqb_refl].
Qed.

Lemma js_le_of_Z (a b : Z) : js_le (of_Z a) (of_Z b) = (a <=? b)%Z.
Proof.
  unfold js_le, of_Z. destruct (Z.leb_spec a b) as [H|H].
  - apply Qle_bool_iff. now rewrite <- Zle_Qle.
  - destruct (Qle_bool (inject_Z a) (inject_Z b)) eqn:E; [|reflexivity].
    apply Qle_bool_iff in E. rewrite <- Zle_Qle in E. lia.
Qed.

(** The playlist holds the rules that pass the three filters. *)
Lemma activePlaylist_filters (now : Z) (schedules : list ScheduleItem)
  (R : ScheduleItem) :
  In R (activePlaylist LocalTZA StringToNumber now schedules) <->
  In R schedules /\
  inActiveWindow now R = true /\
  onDay (getDay LocalTZA now) R = true /\
  inTimeWindow StringToNumber (minuteOfDay LocalTZA now)
               (s_startTime R) (s_endTime R) = true.
Proof.
  unfold activePlaylist. rewrite array_sort_In, !filter_In. tauto.
Qed.

Lemma onDay_spec (day : Z) (R : ScheduleItem) :
  onDay day R = true <->
  match s_days R with
  | Some days => In day days
  | None => True
  end.
Proof.
  unfold onDay. destruct (s_days R); [apply existsb_Zeqb|tauto].
Qed.

Lemma inActiveWindow_spec (now : Z) (R : ScheduleItem) :
  inActiveWindow now R = true <-> (s_startAt R <= now <= s_endAt R)%Z.
Proof. unfold inActiveWindow. rewrite andb_true_iff, !Z.leb_le. tauto. Qed.


(** When both clock bounds are set and read as whole minutes [a] and [b],
    the clock condition is [a <= minute <= b]. *)
Lemma activePlaylist_clock_minutes (now : Z) (schedules : list ScheduleItem)
  (R : ScheduleItem) (start end_ : string) (a b : Z) :
  s_startTime R = Some start -> s_endTime R = Some end_ ->
  str_truthy start = true -> str_truthy end_ = true ->
  toMin StringToNumber start = of_Z a ->
  toMin StringToNumber end_ = of_Z b ->
  (In R (activePlaylist LocalTZA StringToNumber now schedules) <->
   In R schedules /\
   (s_startAt R <= now <= s_endAt R)%Z /\
   match s_days R with
   | Some days => In (getDay LocalTZA now) days
   | None => True
   end /\
   (a <= minuteOfDay LocalTZA now <= b)%Z).
Proof.
  intros Hs He Hts Hte Ha Hb.
  rewrite activePlaylist_filters, inActiveWindow_spec, onDay_spec.
  unfold inTimeWindow, js_ge, windowStart, windowEnd, optstr_truthy.
  rewrite Hs, He, Hts, Hte, Ha, Hb.
  change (negb true && negb true) with false. cbv iota.
  rewrite andb_true_iff, !js_le_of_Z, !Z.leb_le. tauto.
Qed.


End ResolverFacts.


(** ** The advance timer *)

Section TimerFacts.
Import Store Player.
Variable LocalTZA : Z -> Z.
Variable StringToNumber : string -> jsnum.
Variable v : Variant.

Lemma same_timer_one st st' : same_timer st st' -> one_timer st -> one_timer st'.
Proof. unfold same_timer, one_timer. intros [-> ->] H. exact H. Qed.

Lemma same_timer_refl st : same_timer st st.
Proof. split; reflexivity. Qed.

Lemma same_timer_trans a b c : same_timer a b -> same_timer b c -> same_timer a c.
Proof. unfold same_timer. intros [H1 H2] [H3 H4]. split; congruence. Qed.

Lemma clearAdvanceTimer_cleared st : one_timer st -> cleared (clearAdvanceTimer st).
Proof.
  unfold one_timer, cleared, clearAdvanceTimer.
  intros [Hnil|(t & Ht & Hr)].
  - destruct (advanceTimerRef st) eqn:E; simpl.
    + rewrite Hnil. split; reflexivity.
    + split; assumption.
  - rewrite Hr. simpl. rewrite Ht. simpl. rewrite Pos.eqb_refl. simpl.
    split; reflexivity.
Qed.

Lemma clearAdvanceTimer_idem st :
  clearAdvanceTimer (clearAdvanceTimer st) = clearAdvanceTimer st.
Proof.
  unfold clearAdvanceTimer. destruct (advanceTimerRef st) eqn:E; simpl.
  - reflexivity.
  - rewrite E. reflexivity.
Qed.

Lemma armAdvance_one ms c st : cleared st -> one_timer (armAdvance ms c st).
Proof.
  intros [Hnil _]. right. unfold armAdvance. simpl. rewrite Hnil. simpl.
  eexists. split; reflexivity.
Qed.

Lemma cleared_one st : cleared st -> one_timer st.
Proof. intros [H _]. now left. Qed.

Lemma setBackup_one item file c duration st :
  one_timer st -> one_timer (setBackup v item file c duration st).
Proof.
  intro H. unfold setBackup. now apply armAdvance_one, clearAdvanceTimer_cleared.
Qed.

Lemma mediaEffect_one video st st' :
  one_timer st -> mediaEffect v video st = Ok st' -> one_timer st'.
Proof.
  intros H. unfold mediaEffect.
  pose proof (clearAdvanceTimer_cleared H) as Hc.
  set (s := clearAdvanceTimer st) in *.
  destruct (negb (powered s)); [intros [= <-]; now apply cleared_one|].
  destruct (currentDisplayList s); [intros [= <-]; now apply cleared_one|].
  destruct (nth_error _ _) as [item|]; [|discriminate].
  destruct (findFile _ _) as [file|]; [|intros [= <-]; now apply cleared_one].
  destruct (isImage file || isLink file).
  { intros [= <-]. now apply armAdvance_one. }
  destruct (isVideo file).
  - destruct video as [duration|]; [|intros [= <-]; now apply cleared_one].
    destruct (durationKnown duration); intros [= <-].
    + apply setBackup_one. now apply cleared_one.
    + apply cleared_one. exact Hc.
  - intros [= <-]. now apply armAdvance_one.
Qed.

Lemma fold_setBackup_one (ls : list LoadedListener) duration st :
  one_timer st ->
  one_timer
    (fold_left
       (fun s l => setBackup v (l_item l) (l_file l) (l_closure l) duration s)
       ls st).
Proof.
  revert st. induction ls as [|l ls IH]; intros st H; simpl; [exact H|].
  apply IH. now apply setBackup_one.
Qed.

Lemma onLoadedMetadata_one tag duration st :
  one_timer st -> one_timer (onLoadedMetadata v tag duration st).
Proof.
  intro H. unfold onLoadedMetadata. apply fold_setBackup_one. exact H.
Qed.

(** [setBackup] leaves exactly the timeout it arms. *)
Lemma setBackup_single item file c duration st :
  one_timer st ->
  timeouts (setBackup v item file c duration st)
  = [{| handle := nextHandle st;
        delay := backupDelay v item file duration;
        callback := c |}] /\
  advanceTimerRef (setBackup v item file c duration st) = Some (nextHandle st).
Proof.
  intro H. destruct (clearAdvanceTimer_cleared H) as [Hnil _].
  unfold setBackup, armAdvance. simpl. rewrite Hnil. simpl.
  unfold clearAdvanceTimer. destruct (advanceTimerRef st); split; reflexivity.
Qed.


Lemma advance_same_timer c idle st : same_timer st (advance c idle st).
Proof.
  unfold advance. destruct (c_displayList c); [apply same_timer_refl|].
  destruct (match nth_error _ _ with Some _ => _ | None => _ end) as [f|];
    [|split; reflexivity].
  destruct (isVideo f); [|split; reflexivity].
  destruct idle as [[|]|]; split; reflexivity.
Qed.

Lemma goPrev_same_timer c idle st : same_timer st (goPrev c idle st).
Proof.
  unfold goPrev. destruct (c_displayList c); [apply same_timer_refl|].
  destruct (match nth_error _ _ with Some _ => _ | None => _ end) as [f|];
    [|split; reflexivity].
  destruct (isVideo f); [|split; reflexivity].
  destruct idle as [[|]|]; split; reflexivity.
Qed.

Lemma onCanPlay_same_timer tag st : same_timer st (onCanPlay tag st).
Proof.
  unfold onCanPlay.
  set (mine := filter _ (canplayListeners st)).
  set (s0 := with_canplayListeners _ st).
  assert (H0 : same_timer st s0) by (split; reflexivity).
  clearbody s0 mine. revert s0 H0.
  induction mine as [|l mine IH]; intros s0 H0; simpl; [exact H0|].
  apply IH. eapply same_timer_trans; [exact H0|]. split; reflexivity.
Qed.

Lemma fireTimeout_one h idle st : one_timer st -> one_timer (fireTimeout h idle st).
Proof.
  intro H. unfold fireTimeout.
  destruct (find _ (timeouts st)) as [t|] eqn:Hf; [|exact H].
  eapply same_timer_one; [apply advance_same_timer|].
  apply find_some in Hf. destruct Hf as [Hin Heq]. apply Pos.eqb_eq in Heq.
  left. simpl.
  destruct H as [Hnil|(t0 & Ht0 & _)].
  - rewrite Hnil in Hin. destruct Hin.
  - rewrite Ht0 in *. destruct Hin as [<-|[]]. simpl.
    rewrite Heq, Pos.eqb_refl. reflexivity.
Qed.

Lemma applyCommand_one c idle msg st :
  one_timer st -> one_timer (applyCommand StringToNumber c idle msg st).
Proof.
  intro H. unfold applyCommand.
  destruct msg as [msg|]; [|exact H].
  destruct (negb (String.eqb (m_type msg) "command")); [exact H|].
  set (s1 := if String.eqb (m_action msg) "power" then _ else st).
  assert (H1 : one_timer s1).
  { subst s1. destruct (String.eqb (m_action msg) "power"); [|exact H].
    destruct (negb (negb (isOff (m_value msg)))).
    - apply cleared_one, clearAdvanceTimer_cleared. exact H.
    - exact H. }
  clearbody s1.
  set (s2 := if String.eqb (m_action msg) "orientation" then _ else s1).
  assert (H2 : one_timer s2).
  { subst s2. destruct (String.eqb (m_action msg) "orientation"); exact H1. }
  clearbody s2.
  set (s3 := if String.eqb (m_action msg) "brightness" then _ else s2).
  assert (H3 : one_timer s3).
  { subst s3. destruct (String.eqb (m_action msg) "brightness"); exact H2. }
  clearbody s3.
  set (s4 := if String.eqb (m_action msg) "next" then _ else s3).
  assert (H4 : one_timer s4).
  { subst s4. destruct (String.eqb (m_action msg) "next"); [|exact H3].
    eapply same_timer_one; [apply advance_same_timer|exact H3]. }
  clearbody s4.
  destruct (String.eqb (m_action msg) "prev"); [|exact H4].
  eapply same_timer_one; [apply goPrev_same_timer|exact H4].
Qed.

Lemma resetEffect_same_timer st : same_timer st (resetEffect st).
Proof.
  unfold resetEffect.
  destruct (currentFile _ _ _) as [[f|]|]; try apply same_timer_refl.
  destruct (currentDisplayList st); split; reflexivity.
Qed.

Lemma handleEvent_one ev st :
  one_timer st -> one_timer (handleEvent LocalTZA StringToNumber v ev st).
Proof.
  intro H. destruct ev; simpl.
  - now apply applyCommand_one.
  - destruct (mediaEffect v video st) as [st'|e] eqn:E.
    + now apply (mediaEffect_one video H).
    + apply cleared_one, clearAdvanceTimer_cleared. exact H.
  - now apply onLoadedMetadata_one.
  - eapply same_timer_one; [apply onCanPlay_same_timer|exact H].
  - now apply fireTimeout_one.
  - eapply same_timer_one; [apply advance_same_timer|exact H].
  - exact H.
  - exact H.
  - exact H.
  - eapply same_timer_one; [apply resetEffect_same_timer|exact H].
  - apply cleared_one, clearAdvanceTimer_cleared. exact H.
Qed.

Lemma run_one evs st :
  one_timer st -> one_timer (run LocalTZA StringToNumber v evs st).
Proof.
  unfold run. revert st.
  induction evs as [|ev evs IH]; intros st H; simpl; [exact H|].
  apply IH. now apply handleEvent_one.
Qed.

(** C5.  Whatever happens to a page after its first render (commands,
    runs of the media effect, media events, timeouts firing, reloads,
    unmounting), at most one advance timeout is pending, and a pending one
    is the one [advanceTimerRef] holds: [setBackup] and the media effect
    cancel the previous timeout before they arm a new one. *)
Theorem single_advance_timer (o : Orientation) (stored : jsnum)
  (evs : list Event) :
  (List.length
     (timeouts (run LocalTZA StringToNumber v evs (initialRuntime o stored)))
   <= 1)%nat /\
  (forall t,
      In t (timeouts (run LocalTZA StringToNumber v evs (initialRuntime o stored))) ->
      advanceTimerRef (run LocalTZA StringToNumber v evs (initialRuntime o stored))
      = Some (handle t)) /\
  (forall item file c duration,
      timeouts (setBackup v item file c duration
                  (run LocalTZA StringToNumber v evs (initialRuntime o stored)))
      = [{| handle := nextHandle
                        (run LocalTZA StringToNumber v evs (initialRuntime o stored));
            delay := backupDelay v item file duration;
            callback := c |}]).
Proof.
  assert (H : one_timer (run LocalTZA StringToNumber v evs (initialRuntime o stored))).
  { apply run_one. left. reflexivity. }
  set (st := run LocalTZA StringToNumber v evs (initialRuntime o stored)) in *.
  clearbody st. split; [|split].
  - destruct H as [->|(t & -> & _)]; simpl; lia.
  - intros t Hin. destruct H as [Hnil|(t0 & Ht0 & Hr)].
    + rewrite Hnil in Hin. destruct Hin.
    + rewrite Ht0 in Hin. destruct Hin as [<-|[]]. exact Hr.
  - intros item file c duration. now apply setBackup_single.
Qed.
End TimerFacts.

(** ** The media effect and the power command *)

Section EffectFacts.
Import Store Player.
Variable StringToNumber : string -> jsnum.
Variable v : Variant.

Lemma clearAdvanceTimer_noop st :
  advanceTimerRef st = None -> clearAdvanceTimer st = st.
Proof. unfold clearAdvanceTimer. now intros ->. Qed.

Lemma clearAdvanceTimer_keeps st :
  files (clearAdvanceTimer st) = files st /\
  playlist (clearAdvanceTimer st) = playlist st /\
  serverSettings (clearAdvanceTimer st) = serverSettings st /\
  activeIndex (clearAdvanceTimer st) = activeIndex st /\
  powered (clearAdvanceTimer st) = powered st /\
  activeVideoTag (clearAdvanceTimer st) = activeVideoTag st /\
  nextHandle (clearAdvanceTimer st) = nextHandle st /\
  loadedListeners (clearAdvanceTimer st) = loadedListeners st /\
  closure_of (clearAdvanceTimer st) = closure_of st.
Proof.
  unfold clearAdvanceTimer. destruct (advanceTimerRef st); repeat split.
Qed.

(** What the media effect does for a powered page whose current item and
    file resolve: [s] is the state once the previous timer is cancelled. *)
Lemma mediaEffect_resolved video st item file :
  powered st = true ->
  depItem st = Some item ->
  findFile (item_fileId item) (files st) = Some file ->
  mediaEffect v video st =
  let s := clearAdvanceTimer st in
  if isImage file || isLink file then
    Ok (armAdvance (imageLinkDelay v (serverSettings st) item file)
                   (closure_of st) s)
  else if isVideo file then
    match video with
    | None => Ok s
    | Some duration =>
        if durationKnown duration
        then Ok (armAdvance (backupDelay v item file duration) (closure_of st) s)
        else Ok (with_loadedListeners
                   (loadedListeners st ++
                    [{| l_tag := activeVideoTag st; l_item := item;
                        l_file := file; l_closure := closure_of st |}]) s)
    end
  else Ok (armAdvance 10000 (closure_of st) s).
Proof.
  intros Hp Hitem Hfile. unfold mediaEffect, setBackup, depItem in *.
  rewrite clearAdvanceTimer_idem.
  destruct (clearAdvanceTimer_keeps st)
    as (Hf & Hpl & Hss & Hai & Hpw & Htag & _ & Hll & Hcl).
  unfold currentDisplayList in *.
  rewrite Hf, Hpl, Hss, Hai, Hpw, Htag, Hll, Hcl, Hp, Hitem, Hfile. simpl.
  destruct (displayList (playlist st) (files st)) eqn:E.
  - destruct (activeIndex st); discriminate Hitem.
  - reflexivity.
Qed.











End EffectFacts.

(** ** Demonstration states *)


(** ** Duration resolution *)

Section DurationFacts.
Import Store Player.

(** The enhanced page resolves the duration of an image or a link by the
    hierarchy: schedule-level duration, then the file's own, then the
    default of the media class. *)
Lemma getEffectiveDuration_hierarchy (settings : PlayerSettings)
  (item : DisplayItem) (file : FileItem) :
  match positive_duration (item_durationSeconds item),
        positive_duration (f_durationSeconds file) with
  | Some d, _ => getEffectiveDuration settings item file = d
  | None, Some d => getEffectiveDuration settings item file = d
  | None, None =>
      (isImage file = true ->
       getEffectiveDuration settings item file
       = orElse (defaultImageDuration settings) 10) /\
      (isImage file = false -> isLink file = true ->
       getEffectiveDuration settings item file
       = orElse (defaultLinkDuration settings) 30)
  end.
Proof.
  unfold getEffectiveDuration.
  destruct (positive_duration (item_durationSeconds item)); [reflexivity|].
  destruct (positive_duration (f_durationSeconds file)); [reflexivity|].
  split.
  - intros ->. reflexivity.
  - intros -> ->. reflexivity.
Qed.

(** The basic page knows one tier only: the item's own duration, else 10
    seconds, whatever the file and the settings say. *)
Lemma basic_delay_one_tier (settings : PlayerSettings) (item : DisplayItem)
  (file : FileItem) :
  imageLinkDelay Basic settings item file
  = match positive_duration (item_durationSeconds item) with
    | Some d => d * 1000
    | None => 10 * 1000
    end.
Proof.
  unfold imageLinkDelay, DEFAULT_IMAGE_LINK_SEC.
  destruct (positive_duration (item_durationSeconds item)); reflexivity.
Qed.

(** C2 on the basic page ([src/app/player/page.tsx]): with the default
    image duration set to 20 seconds, an image without any override gets a
    timer of 10 seconds, where the enhanced page arms 20 seconds. *)
Theorem basic_page_skips_default_tier :
  (exists st',
      mediaEffect Basic None (showing [olderFile] 0 twentySeconds true) = Ok st' /\
      map delay (timeouts st') = [10000]) /\
  (exists st',
      mediaEffect Enhanced None (showing [olderFile] 0 twentySeconds true) = Ok st' /\
      map delay (timeouts st') = [20000]).
Proof.
  split.
  - eexists. split; reflexivity.
  - eexists. split; reflexivity.
Qed.
End DurationFacts.

(** ** Videos: the backup timer *)

Section BackupFacts.
Import Store Player.
Variable v : Variant.

Lemma naturalOr30_known (d : Q) :
  durationKnown (JFin d) = true -> naturalOr30 (JFin d) = d.
Proof.
  unfold durationKnown, naturalOr30, js_gt, js_lt. simpl.
  now intros ->.
Qed.

Lemma naturalOr30_unknown (duration : jsnum) :
  durationKnown duration = false -> naturalOr30 duration = 30.
Proof.
  unfold durationKnown, naturalOr30, js_gt, js_lt.
  destruct duration as [| | |d]; try reflexivity. simpl.
  now intros ->.
Qed.

(** The enhanced page resolves the delay of a video by the hierarchy. *)
Lemma backupDelay_hierarchy (item : DisplayItem) (file : FileItem)
  (duration : jsnum) :
  match positive_duration (item_durationSeconds item),
        positive_duration (f_durationSeconds file) with
  | Some o, _ => backupDelay Enhanced item file duration = Qmaximum (1 # 10) o * 1000
  | None, Some o => backupDelay Enhanced item file duration = Qmaximum (1 # 10) o * 1000
  | None, None =>
      backupDelay Enhanced item file duration
      = (naturalOr30 duration + (1 # 2)) * 1000
  end.
Proof.
  unfold backupDelay.
  destruct (positive_duration (item_durationSeconds item)); [reflexivity|].
  destruct (positive_duration (f_durationSeconds file)); reflexivity.
Qed.

(** C7, as amended.  For a video with neither a schedule-level nor a
    file-level duration, on either page: when the video tag already reports
    a finite positive length [d], the media effect arms the timer for
    [d + 0.5] seconds; when it does not, the effect arms no timer and
    leaves [onLoaded] waiting for [loadedmetadata]; and whenever
    [setBackup] runs it arms the timer for the reported length plus 0.5
    seconds, with 30 seconds in place of a length that is not finite and
    positive. *)
Theorem video_backup_timer (st : Runtime) (item : DisplayItem)
  (file : FileItem) :
  powered st = true ->
  depItem st = Some item ->
  findFile (item_fileId item) (files st) = Some file ->
  isImage file || isLink file = false ->
  isVideo file = true ->
  positive_duration (item_durationSeconds item) = None ->
  positive_duration (f_durationSeconds file) = None ->
  (forall d,
      durationKnown (JFin d) = true ->
      mediaEffect v (Some (JFin d)) st
      = Ok (armAdvance ((d + (1 # 2)) * 1000) (closure_of st)
                       (clearAdvanceTimer st))) /\
  (forall duration,
      durationKnown duration = false ->
      mediaEffect v (Some duration) st
      = Ok (with_loadedListeners
              (loadedListeners st ++
               [{| l_tag := activeVideoTag st; l_item := item;
                   l_file := file; l_closure := closure_of st |}])
              (clearAdvanceTimer st))) /\
  (forall c duration s,
      setBackup v item file c duration s
      = armAdvance ((naturalOr30 duration + (1 # 2)) * 1000) c
                   (clearAdvanceTimer s)) /\
  (forall duration,
      durationKnown duration = false -> naturalOr30 duration = 30).
Proof.
  intros Hp Hitem Hfile Hil Hv Hi Hf.
  assert (Hd : forall duration,
             backupDelay v item file duration
             = (naturalOr30 duration + (1 # 2)) * 1000).
  { intro duration. unfold backupDelay. rewrite Hi, Hf.
    destruct v; reflexivity. }
  repeat split.
  - intros d Hk.
    rewrite (@mediaEffect_resolved v (Some (JFin d)) st item file Hp Hitem Hfile).
    cbv zeta. rewrite Hil, Hv, Hk, Hd, (naturalOr30_known d Hk). reflexivity.
  - intros duration Hk.
    rewrite (@mediaEffect_resolved v (Some duration) st item file Hp Hitem Hfile).
    cbv zeta. rewrite Hil, Hv, Hk. reflexivity.
  - intros c duration s. unfold setBackup. rewrite Hd. reflexivity.
  - apply naturalOr30_unknown.
Qed.
End BackupFacts.

(** A natural length of 12 seconds gives a timer of 12.5 seconds. *)
Lemma video_backup_timer_witness :
  Player.powered (showing [demoVideo] 0 Store.defaultPlayerSettings true) = true /\
  exists st',
    Player.mediaEffect Player.Basic (Some (JFin 12))
      (showing [demoVideo] 0 Store.defaultPlayerSettings true) = Ok st' /\
    Forall (fun t => Player.delay t == 12500) (Player.timeouts st').
Proof.
  split; [reflexivity|].
  destruct (@video_backup_timer Player.Basic
              (showing [demoVideo] 0 Store.defaultPlayerSettings true)
              (Player.fileEntry demoVideo) demoVideo
              eq_refl eq_refl eq_refl eq_refl eq_refl eq_refl eq_refl)
    as (Hknown & _).
  eexists. split; [apply (Hknown 12%Q); reflexivity|].
  repeat constructor.
Defined.

(** C7 as stated fails: when the video tag does not report a length yet,
    the media effect arms no timer at all, on either page; nothing advances
    the playlist until [loadedmetadata] fires. *)
Lemma video_without_metadata_arms_nothing :
  (exists st',
      Player.mediaEffect Player.Basic (Some JNaN)
        (showing [demoVideo] 0 Store.defaultPlayerSettings true) = Ok st' /\
      Player.timeouts st' = [] /\ Player.advanceTimerRef st' = None /\
      List.length (Player.loadedListeners st') = 1%nat) /\
  (exists st',
      Player.mediaEffect Player.Enhanced (Some JNaN)
        (showing [demoVideo] 0 Store.defaultPlayerSettings true) = Ok st' /\
      Player.timeouts st' = [] /\ Player.advanceTimerRef st' = None /\
      List.length (Player.loadedListeners st') = 1%nat).
Proof.
  split; eexists; repeat split.
Qed.

(** ** A file deleted under the running playlist *)

Section StaleIndexFacts.
Import Store Player.

(** Past the end of a non-empty display list, [currentFile] throws. *)
Lemma currentFile_out_of_bounds (dl : list DisplayItem) (i : nat)
  (fs : list FileItem) :
  dl <> [] -> (List.length dl <= i)%nat -> currentFile dl i fs = Throw TypeError.
Proof.
  intros Hne Hlen. unfold currentFile.
  destruct dl as [|x dl]; [congruence|].
  apply nth_error_None in Hlen. now rewrite Hlen.
Qed.

(** Within the display list, a missing file is absorbed: [currentFile] is
    [null] and the effect that follows it sends the index back to 0. *)
Lemma resetEffect_missing_file (st : Runtime) (item : DisplayItem) :
  depItem st = Some item ->
  findFile (item_fileId item) (files st) = None ->
  currentFile (currentDisplayList st) (activeIndex st) (files st) = Ok None /\
  activeIndex (resetEffect st) = 0%nat.
Proof.
  unfold depItem, resetEffect, currentFile. intros Hitem Hfile.
  destruct (currentDisplayList st) as [|x dl] eqn:E.
  - destruct (activeIndex st); discriminate Hitem.
  - rewrite Hitem, Hfile. split; reflexivity.
Qed.
End StaleIndexFacts.

(** C4 at the spec's own scenario.  Three files play in fallback mode and
    the page shows the one at index 2; that file is deleted and the page
    reloads.  The display list now has two entries, the index is still 2,
    and computing [currentFile] throws a [TypeError] during the render:
    the effect that would send the index back to 0 is never reached (the
    media effect reads the same entry and throws as well). *)
Theorem deleting_last_shown_item_throws :
  let before := Player.resolve utc Js.decimalToNumber 5000 threeFiles in
  let store' := snd (Store.removeFile "f1" threeFiles) in
  let after := Player.resolve utc Js.decimalToNumber 5000 store' in
  List.length before = 3%nat /\
  Player.currentFile before 2 (Store.GET_files threeFiles) = Ok (Some olderFile) /\
  List.length after = 2%nat /\
  Player.currentFile after 2 (Store.GET_files store') = Throw TypeError /\
  Player.mediaEffect Player.Basic None
    (showing (Store.GET_files store') 2 Store.defaultPlayerSettings true)
  = Throw TypeError /\
  Player.mediaEffect Player.Enhanced None
    (showing (Store.GET_files store') 2 Store.defaultPlayerSettings true)
  = Throw TypeError.
Proof.
  repeat split.
Qed.

(** ** Commands with a malformed value *)

Section CommandFacts.
Import Store Player.
Variable StringToNumber : string -> jsnum.

Lemma clamp_valid (n : jsnum) :
  n <> JNaN -> validBrightness (Math_max (JFin 0) (Math_min (JFin 200) n)).
Proof.
  intro Hn. unfold validBrightness.
  destruct n as [| | |q]; [congruence| | |]; try (split; reflexivity).
  unfold Math_min, Math_max, js_le.
  destruct (Qle_bool 200 q) eqn:E1; simpl.
  - split; reflexivity.
  - destruct (Qle_bool 0 q) eqn:E2; simpl.
    + split; [exact E2|].
      apply Qle_bool_iff.
      destruct (Qlt_le_dec q 200) as [Hlt|Hle]; [now apply Qlt_le_weak|].
      apply Qle_bool_iff in Hle. congruence.
    + split; reflexivity.
Qed.

(** The page's first brightness is always in range: the initialiser tests
    [Number.isFinite] before it clamps. *)
Lemma initialBrightness_valid (stored : jsnum) :
  validBrightness (initialBrightness stored).
Proof.
  unfold initialBrightness.
  destruct stored as [| | |q]; simpl; try (split; reflexivity).
  apply (@clamp_valid (JFin q)). discriminate.
Qed.

(** A brightness command whose value converts to a number other than NaN
    is clamped into the range. *)
Lemma brightness_command_clamps (c : Closure) (idle : option bool)
  (value : JsValue) (st : Runtime) :
  ToNumber StringToNumber value <> JNaN ->
  validBrightness
    (brightness
       (applyCommand StringToNumber c idle
          (Some {| m_type := "command"; m_action := "brightness";
                   m_value := value |}) st)).
Proof.
  intro Hn. unfold applyCommand. simpl. now apply clamp_valid.
Qed.

(** A command with an action the page does not know changes nothing. *)
Lemma unknown_action_ignored (c : Closure) (idle : option bool)
  (msg : Message) (st : Runtime) :
  String.eqb (m_action msg) "power" = false ->
  String.eqb (m_action msg) "orientation" = false ->
  String.eqb (m_action msg) "brightness" = false ->
  String.eqb (m_action msg) "next" = false ->
  String.eqb (m_action msg) "prev" = false ->
  applyCommand StringToNumber c idle (Some msg) st = st.
Proof.
  intros H1 H2 H3 H4 H5. unfold applyCommand.
  rewrite H1, H2, H3, H4, H5. now destruct (negb _).
Qed.

(** C8 at a malformed brightness command.  A [brightness] command that
    carries no value (or one that does not convert to a number) leaves NaN
    as the page's brightness: [Math.max(0, Math.min(200, NaN))] is NaN, a
    value outside 0..200. *)
Theorem brightness_command_without_value_gives_NaN
  (c : Closure) (idle : option bool) (st : Runtime) :
  brightness (applyCommand StringToNumber c idle brightnessWithoutValue st)
  = JNaN /\
  ~ validBrightness
      (brightness (applyCommand StringToNumber c idle brightnessWithoutValue st)).
Proof.
  split; [reflexivity|].
  intros [H _]. discriminate H.
Qed.
End CommandFacts.

(** The settings route never stores a brightness outside 0..200: a value
    that is not a number in the range is no update. *)
Lemma POST_settings_brightness (header : option string)
  (body : option Store.SettingsBody) (st : Store.Store) :
  0 <= Store.brightness (Store.playerSettings st) <= 200 ->
  0 <= Store.brightness
         (Store.playerSettings (snd (Store.POST_settings header body st)))
    <= 200.
Proof.
  intro H. unfold Store.POST_settings.
  destruct (negb (Store.auth header st)); [exact H|].
  destruct body as [b|]; [|exact H].
  destruct (Store.noUpdates (Store.settingsUpdates b)); [exact H|].
  simpl. unfold Store.roundedWithin.
  destruct (Store.sb_brightness b) as [[| | |[| | |q]| |]|]; try exact H.
  destruct (Qle_bool 0 q && Qle_bool q 200) eqn:E; [|exact H].
  apply andb_true_iff in E. destruct E as [E1 E2].
  apply Qle_bool_iff in E1, E2. unfold Store.Math_round. split.
  - change (0 : Q) with (inject_Z (Qfloor 0)). rewrite <- Zle_Qle.
    apply Qfloor_resp_le. lra.
  - pose proof (Qfloor_le (q + (1 # 2))) as Hf.
    assert (Hq : inject_Z (Qfloor (q + (1 # 2))) <= 401 # 2) by lra.
    set (n := Qfloor (q + (1 # 2))) in *.
    unfold Qle in Hq. cbn [Qnum Qden inject_Z] in Hq.
    change (200 : Q) with (inject_Z 200). rewrite <- Zle_Qle. lia.
Qed.

(** ** Worked examples *)

(** 14 November 2023, 22:13:20 UTC is a Tuesday, minute 1333 of the day. *)
Example getDay_example : Player.getDay utc 1700000000000 = 2%Z.
Proof. reflexivity. Qed.

Example minuteOfDay_example : Player.minuteOfDay utc 1700000000000 = 1333%Z.
Proof. reflexivity. Qed.

Example toMin_example :
  Player.toMin Js.decimalToNumber "09:30" = Js.of_Z 570 /\
  Player.toMin Js.decimalToNumber "17" = Js.of_Z 1020 /\
  Player.toMin Js.decimalToNumber "ab:30" = JNaN.
Proof. repeat split. Qed.

(** Two overlapping rules of order 5 and 1: the one of order 1 comes first;
    a rule for other days and a rule whose clock window is over are left
    out. *)
Example activePlaylist_example :
  Player.activePlaylist utc Js.decimalToNumber 1700000000000
    [ ruleWith "five" 5 None None None;
      ruleWith "monday" 0 (Some [1%Z]) None None;
      ruleWith "morning" 0 None (Some "08:00"%string) (Some "12:00"%string);
      ruleWith "one" 1 (Some [2%Z; 4%Z]) (Some "22:00"%string) (Some "22:13"%string) ]
  = [ ruleWith "one" 1 (Some [2%Z; 4%Z]) (Some "22:00"%string) (Some "22:13"%string);
      ruleWith "five" 5 None None None ].
Proof. reflexivity. Qed.

(** The resolved playlist is in ascending [order]. *)
Lemma activePlaylist_sorted (LocalTZA : Z -> Z)
  (StringToNumber : string -> jsnum) (now : Z)
  (schedules : list Store.ScheduleItem) :
  StronglySorted (fun a b => (Store.s_order a <= Store.s_order b)%Z)
    (Player.activePlaylist LocalTZA StringToNumber now schedules).
Proof.
  unfold Player.activePlaylist.
  match goal with |- StronglySorted _ (array_sort ?c ?l) =>
    pose proof (@array_sort_sorted _ c) as H; specialize (H ltac:(intros; lia));
    specialize (H ltac:(intros; lia) l) end.
  induction H as [|a l _ IH Hall]; constructor; [exact IH|].
  rewrite Forall_forall in *. intros x Hx. specialize (Hall x Hx).
  unfold before in Hall. lia.
Qed.

(** One rule for one image, no duration anywhere, default image duration
    10: the enhanced page shows it for 10 seconds. *)
Example default_image_duration_example :
  Player.getEffectiveDuration Store.defaultPlayerSettings
    (Player.FromSchedule (ruleWith "only" 0 None None None)) olderFile
  = 10.
Proof. reflexivity. Qed.

(** A natural length of 12 seconds gives a delay of 12500 milliseconds. *)
Example backupDelay_example :
  Player.backupDelay Player.Enhanced (Player.fileEntry demoVideo) demoVideo
    (JFin 12) == 12500 /\
  Player.backupDelay Player.Basic (Player.fileEntry demoVideo) demoVideo
    JPosInf == 30500.
Proof. split; reflexivity. Qed.

(** A video whose length is not known yet: the media effect leaves a
    listener, and [loadedmetadata] then arms the backup timer, for 12.5
    seconds when the tag reports 12 seconds and for 30.5 seconds when it
    reports an infinite length. *)
Example loadedmetadata_arms_backup :
  exists st',
    Player.mediaEffect Player.Basic (Some JNaN)
      (showing [demoVideo] 0 Store.defaultPlayerSettings true) = Ok st' /\
    Forall (fun t => Player.delay t == 12500)
           (Player.timeouts
              (Player.onLoadedMetadata Player.Basic Player.TagA (JFin 12) st')) /\
    List.length
      (Player.timeouts
         (Player.onLoadedMetadata Player.Basic Player.TagA (JFin 12) st'))
    = 1%nat /\
    Forall (fun t => Player.delay t == 30500)
           (Player.timeouts
              (Player.onLoadedMetadata Player.Basic Player.TagA JPosInf st')).
Proof.
  eexists. split; [reflexivity|].
  split; [|split]; [repeat constructor|reflexivity|repeat constructor].
Qed.

(* ================================================================== *)
(** * Further properties of the routes and of the player *)
(* ================================================================== *)

(** ** Streaming with a [Range] header *)

Section StreamFacts.
Import Store Stream.

Lemma digits_value_nonneg (s : string) (acc : Z) :
  (0 <= acc)%Z -> (0 <= match digits_value acc s with Some z => z | None => 0 end)%Z.
Proof.
  revert acc. induction s as [|c s IH]; intros acc Hacc;
    cbn [digits_value]; [exact Hacc|].
  unfold digit_value.
  destruct ((48 <=? Z.of_nat (nat_of_ascii c)) && (Z.of_nat (nat_of_ascii c) <=? 57))%Z
    eqn:E; [|lia].
  apply IH. apply andb_true_iff in E. destruct E as [E1 E2].
  apply Z.leb_le in E1. lia.
Qed.

Lemma parseDigits_nonneg (g : string) : (0 <= parseDigits g)%Z.
Proof. unfold parseDigits. apply digits_value_nonneg. lia. Qed.

Lemma rangeBounds_within (range : string) (fileSize : Z) :
  (0 < fileSize)%Z ->
  (0 <= fst (rangeBounds range fileSize) <= fileSize - 1)%Z /\
  (0 <= snd (rangeBounds range fileSize) <= fileSize - 1)%Z.
Proof.
  intro Hs. unfold rangeBounds.
  destruct (matchRange range) as [[g1 g2]|]; simpl; [|lia].
  pose proof (parseDigits_nonneg g1). pose proof (parseDigits_nonneg g2).
  destruct (str_truthy g1), (str_truthy g2); lia.
Qed.

(** X1.  The reply to a request with a [Range] header for a file that exists.
    An empty file has no satisfiable range.  Otherwise both bounds are
    clamped into the file, so the only unsatisfiable range is one whose end
    comes before its start; every other one is served, and what is served
    lies within the file.  A range without an end is served up to the last
    byte. *)
Theorem stream_range_reply (id : string) (stat : string -> option Z)
  (range : string) (st : Store) (item : FileItem) (fileSize : Z) :
  map_get id (files st) = Some item ->
  stat (f_path item) = Some fileSize ->
  (0 <= fileSize)%Z ->
  str_truthy range = true ->
  (fileSize = 0%Z ->
   GET_stream id stat (Some range) st = RangeNotSatisfiable fileSize) /\
  ((0 < fileSize)%Z ->
   GET_stream id stat (Some range) st
   = if (snd (rangeBounds range fileSize) <? fst (rangeBounds range fileSize))%Z
     then RangeNotSatisfiable fileSize
     else PartialContent (fst (rangeBounds range fileSize))
                         (snd (rangeBounds range fileSize))
                         fileSize (f_mime item)) /\
  (forall start end_ size mime,
      GET_stream id stat (Some range) st = PartialContent start end_ size mime ->
      (0 <= start <= end_)%Z /\ (end_ < size)%Z /\ size = fileSize) /\
  (forall g1,
      (0 < fileSize)%Z -> matchRange range = Some (g1, EmptyString) ->
      GET_stream id stat (Some range) st
      = PartialContent (fst (rangeBounds range fileSize)) (fileSize - 1)
                       fileSize (f_mime item)).
Proof.
  intros Hitem Hstat Hsize Hr.
  assert (Hget : GET_stream id stat (Some range) st
                 = if (snd (rangeBounds range fileSize)
                       <? fst (rangeBounds range fileSize))%Z
                      || (fst (rangeBounds range fileSize) <? 0)%Z
                      || (fileSize <=? snd (rangeBounds range fileSize))%Z
                   then RangeNotSatisfiable fileSize
                   else PartialContent (fst (rangeBounds range fileSize))
                                       (snd (rangeBounds range fileSize))
                                       fileSize (f_mime item)).
  { unfold GET_stream. rewrite Hitem, Hstat, Hr.
    destruct (rangeBounds range fileSize). reflexivity. }
  split; [|split; [|split]].
  - intros ->. rewrite Hget. unfold rangeBounds.
    destruct (matchRange range) as [[g1 g2]|]; simpl; [|reflexivity].
    pose proof (parseDigits_nonneg g1). pose proof (parseDigits_nonneg g2).
    match goal with |- (if ?b then _ else _) = _ =>
      assert (E : b = true); [|now rewrite E] end.
    destruct (str_truthy g1), (str_truthy g2);
      rewrite !orb_true_iff, !Z.ltb_lt, Z.leb_le; lia.
  - intro Hpos. rewrite Hget.
    destruct (rangeBounds_within range Hpos) as [H1 H2].
    destruct (Z.ltb_spec (snd (rangeBounds range fileSize))
                         (fst (rangeBounds range fileSize))); [reflexivity|].
    simpl.
    destruct (Z.ltb_spec (fst (rangeBounds range fileSize)) 0); [lia|].
    destruct (Z.leb_spec fileSize (snd (rangeBounds range fileSize))); [lia|].
    reflexivity.
  - intros start end_ size mime. rewrite Hget.
    destruct ((snd (rangeBounds range fileSize) <? fst (rangeBounds range fileSize))%Z
              || (fst (rangeBounds range fileSize) <? 0)%Z
              || (fileSize <=? snd (rangeBounds range fileSize))%Z) eqn:E;
      [discriminate|].
    intros [= <- <- <- _].
    rewrite !orb_false_iff, !Z.ltb_ge, Z.leb_gt in E. lia.
  - intros g1 Hpos Hm. rewrite Hget.
    destruct (rangeBounds_within range Hpos) as [H1 H2].
    assert (Hend : snd (rangeBounds range fileSize) = (fileSize - 1)%Z).
    { unfold rangeBounds. rewrite Hm. reflexivity. }
    rewrite Hend in *.
    destruct (Z.ltb_spec (fileSize - 1) (fst (rangeBounds range fileSize))); [lia|].
    destruct (Z.ltb_spec (fst (rangeBounds range fileSize)) 0); [lia|].
    destruct (Z.leb_spec fileSize (fileSize - 1)); [lia|].
    reflexivity.
Qed.
End StreamFacts.

(** A range past the end of a 1000-byte file is served as its last byte. *)
Lemma stream_range_reply_witness :
  Stream.GET_stream "f1" (fun _ => Some 1000%Z) (Some "bytes=5000-"%string)
    oneImageStore
  = Stream.PartialContent 999 999 1000 "image/png".
Proof.
  destruct (@stream_range_reply "f1" (fun _ => Some 1000%Z) "bytes=5000-"
              oneImageStore olderFile 1000%Z eq_refl eq_refl
              ltac:(lia) eq_refl)
    as (_ & _ & _ & Hopen).
  rewrite (Hopen "5000"%string ltac:(lia) eq_refl). reflexivity.
Defined.

(** ** Tokens, login and the password *)

Section AuthFacts.
Import Store Auth.

Lemma substring_all (s : string) : String.substring 0 (String.length s) s = s.
Proof. induction s as [|c s IH]; simpl; [reflexivity | now rewrite IH]. Qed.

Lemma prefix_split (p h : string) :
  String.prefix p h = true ->
  h = (p ++ String.substring (String.length p)
                             (String.length h - String.length p) h)%string.
Proof.
  revert h. induction p as [|c p IH]; intros h Hp.
  - simpl. rewrite Nat.sub_0_r. now rewrite substring_all.
  - destruct h as [|d h]; [discriminate|]. simpl in Hp.
    destruct (Ascii.ascii_dec c d) as [->|]; [|discriminate].
    simpl. f_equal. now apply IH.
Qed.

Lemma existsb_eqb_In (t : string) (l : list string) :
  existsb (String.eqb t) l = true <-> In t l.
Proof.
  rewrite existsb_exists. split.
  - intros (x & Hin & Heq). apply String.eqb_eq in Heq. now subst.
  - intro Hin. exists t. split; [exact Hin | apply String.eqb_refl].
Qed.

(** A header is accepted exactly when it is [Bearer ] followed by a
    non-empty token of the store. *)
Lemma auth_spec (header : option string) (st : Store) :
  auth header st = true <->
  exists t, header = Some ("Bearer " ++ t)%string /\ str_truthy t = true /\
            In t (tokens st).
Proof.
  split.
  - unfold auth. intro H.
    destruct header as [h|]; [|discriminate].
    destruct (String.prefix "Bearer " h) eqn:Hp; [|discriminate].
    apply andb_true_iff in H. destruct H as [Ht Hin].
    exists (String.substring 7 (String.length h - 7) h). split; [|split].
    + f_equal. exact (prefix_split "Bearer " h Hp).
    + exact Ht.
    + now apply existsb_eqb_In.
  - intros (t & -> & Ht & Hin). unfold auth.
    change (String.prefix "Bearer " ("Bearer " ++ t)) with (String.prefix "" t).
    replace (String.prefix "" t) with true by (now destruct t).
    change (String.length ("Bearer " ++ t)%string - 7)%nat
      with (String.length t - 0)%nat.
    rewrite Nat.sub_0_r.
    change (String.substring 7 (String.length t) ("Bearer " ++ t))
      with (String.substring 0 (String.length t) t).
    rewrite substring_all, Ht. simpl. now apply existsb_eqb_In.
Qed.

Lemma auth_no_token (header : option string) (st : Store) :
  carriesNoToken header st -> auth header st = false.
Proof.
  intro H. destruct (auth header st) eqn:E; [|reflexivity].
  apply auth_spec in E. destruct E as (t & -> & _ & Hin).
  now destruct (H t Hin).
Qed.

Lemma auth_same_tokens (header : option string) (st st' : Store) :
  tokens st' = tokens st -> auth header st' = auth header st.
Proof. intro H. unfold auth. now rewrite H. Qed.



End AuthFacts.

(** ** More on maps *)

Section JsMapMore.
Variable V : Type.
Implicit Types (m : JsMap V) (k : string) (v : V).

Lemma map_get_set k k' v m :
  map_get k (map_set k' v m) = if String.eqb k k' then Some v else map_get k m.
Proof.
  induction m as [|[k0 v0] m IH]; simpl.
  - destruct (String.eqb k k'); reflexivity.
  - destruct (String.eqb_spec k' k0) as [->|Hne]; simpl.
    + destruct (String.eqb k k0); reflexivity.
    + rewrite IH. destruct (String.eqb_spec k k0) as [->|]; [|reflexivity].
      destruct (String.eqb_spec k0 k') as [->|]; [congruence | reflexivity].
Qed.

Lemma map_has_In k m : map_has k m = true <-> exists v, In (k, v) m.
Proof.
  unfold map_has. induction m as [|[k0 v0] m IH]; simpl.
  - split; [discriminate | intros [_ []]].
  - destruct (String.eqb_spec k k0) as [->|Hne].
    + split; [|reflexivity]. intros _. exists v0. now left.
    + rewrite IH. split; intros [v H]; exists v; [now right|].
      destruct H as [H|H]; [congruence | exact H].
Qed.

Lemma map_get_In k v m : map_get k m = Some v -> In (k, v) m.
Proof.
  induction m as [|[k0 v0] m IH]; simpl; [discriminate|].
  destruct (String.eqb_spec k k0) as [->|Hne].
  - intros [= ->]. now left.
  - intro H. right. now apply IH.
Qed.

Lemma In_map_get k v m : unique_keys m -> In (k, v) m -> map_get k m = Some v.
Proof.
  unfold unique_keys. induction m as [|[k0 v0] m IH]; simpl; [intros _ []|].
  intros Hnd [H|H].
  - inversion H; subst. now rewrite String.eqb_refl.
  - inversion Hnd as [|? ? Hnotin Hnd']; subst.
    destruct (String.eqb_spec k k0) as [->|Hne]; [|now apply IH].
    destruct Hnotin. change k0 with (fst (k0, v)). now apply in_map.
Qed.

Lemma map_set_fresh k v m : map_has k m = false -> map_set k v m = m ++ [(k, v)].
Proof.
  unfold map_has. induction m as [|[k0 v0] m IH]; simpl; [reflexivity|].
  destruct (String.eqb k k0); [discriminate|]. intro H. now rewrite IH.
Qed.

Lemma map_set_keys k v m :
  map fst (map_set k v m) = if map_has k m then map fst m else map fst m ++ [k].
Proof.
  unfold map_has. induction m as [|[k0 v0] m IH]; simpl; [reflexivity|].
  destruct (String.eqb_spec k k0) as [->|Hne]; simpl; [reflexivity|].
  rewrite IH. now destruct (map_get k m).
Qed.

Lemma unique_keys_set k v m : unique_keys m -> unique_keys (map_set k v m).
Proof.
  unfold unique_keys. rewrite map_set_keys. intro H.
  destruct (map_has k m) eqn:E; [exact H|].
  apply NoDup_app; [exact H | constructor; [intros [] | constructor] |].
  intros x Hin [Heq|[]].
  apply in_map_iff in Hin. destruct Hin as ([k0 v0] & Hk & Hin). simpl in Hk.
  subst k0 x.
  assert (map_has k m = true) by (apply map_has_In; now exists v0). congruence.
Qed.

Lemma unique_keys_delete k m : unique_keys m -> unique_keys (map_delete k m).
Proof.
  unfold unique_keys, map_delete. induction m as [|[k0 v0] m IH]; simpl; [auto|].
  intro H. inversion H as [|? ? Hnotin Hnd]; subst.
  destruct (negb (String.eqb k0 k)); simpl; [|now apply IH].
  constructor; [|now apply IH].
  intro Hin. apply Hnotin. apply in_map_iff in Hin.
  destruct Hin as (x & Hx & Hin). apply filter_In in Hin.
  rewrite <- Hx. apply in_map. tauto.
Qed.

Lemma unique_keys_filter (f : string * V -> bool) m :
  unique_keys m -> unique_keys (filter f m).
Proof.
  unfold unique_keys. induction m as [|kv m IH]; simpl; [auto|].
  intro H. inversion H as [|? ? Hnotin Hnd]; subst.
  destruct (f kv); simpl; [|now apply IH].
  constructor; [|now apply IH].
  intro Hin. apply Hnotin. apply in_map_iff in Hin.
  destruct Hin as (x & Hx & Hin). apply filter_In in Hin.
  rewrite <- Hx. apply in_map. tauto.
Qed.
End JsMapMore.

(** ** The protected routes *)

Section RouteFacts.
Import Store.

(** X4.  A request whose header carries none of the store's tokens changes
    nothing: every route that writes to the store answers 401 and leaves the
    store as it was. *)
Theorem writes_need_a_token (header : option string) (st : Store)
  (body : ScheduleBody) (now : Z) (genId stamp : string)
  (scheduleId : option string) (fileId : string)
  (settings : option SettingsBody)
  (trim encodeURIComponent : string -> string)
  (diskPathFor : string -> Storage -> string)
  (req : Files.Request) (storage : Storage) (written : bool)
  (normalize : string -> string) (envPassword : option string)
  (oldPassword newPassword : string) :
  carriesNoToken header st ->
  POST_schedule header body now genId st
    = ({| status := 401; created := None |}, st) /\
  DELETE_schedule header scheduleId st = (401%Z, st) /\
  DELETE_file header fileId st = (401%Z, st) /\
  POST_settings header settings st = (401%Z, st) /\
  Files.POST_files trim encodeURIComponent diskPathFor header req now stamp
    genId storage written st = ((401%Z, None), st) /\
  Auth.POST_password normalize envPassword header oldPassword newPassword st
    = (Auth.Unauthorized, st).
Proof.
  intro H. apply auth_no_token in H.
  unfold POST_schedule, DELETE_schedule, DELETE_file, POST_settings,
    Files.POST_files, Auth.POST_password.
  rewrite H. simpl. repeat split.
Qed.
End RouteFacts.

(** A header with a token that was never handed out. *)
Lemma writes_need_a_token_witness :
  Store.DELETE_file (Some "Bearer guess"%string) "f1" loggedInStore
  = (401%Z, loggedInStore).
Proof.
  assert (H : carriesNoToken (Some "Bearer guess"%string) loggedInStore).
  { intros t [<-|[]]. discriminate. }
  exact (proj1 (proj2 (proj2
    (@writes_need_a_token (Some "Bearer guess"%string) loggedInStore
       {| Store.b_id := None; Store.b_fileId := None; Store.b_startAt := None;
          Store.b_endAt := None; Store.b_order := None; Store.b_days := None;
          Store.b_startTime := None; Store.b_endTime := None;
          Store.b_durationSeconds := JNaN; Store.b_muted := None |}
       0%Z "g" "0" None "f1" None (fun s => s) (fun s => s)
       (fun s _ => s) Files.JsonInvalid Store.Public true (fun s => s) None
       "" "" H)))).
Defined.

(** ** What the routes store *)

Section StoredItemFacts.
Import Store.




(** X6.  The schedule a successful [POST /api/schedule] creates: it is stored
    under its id and refers to a file of the store; it starts at the given
    instant or now, and without a given end it lasts one hour; its days,
    when it has any, are a non-empty list of days 0..6; its duration, when
    it has one, is positive; and a schedule for a link always has a
    duration. *)
Theorem POST_schedule_created (header : option string) (body : ScheduleBody)
  (now : Z) (genId : string) (st : Store) :
  status (fst (POST_schedule header body now genId st)) = 200%Z ->
  exists item,
    created (fst (POST_schedule header body now genId st)) = Some item /\
    map_get (s_id item) (schedules (snd (POST_schedule header body now genId st)))
      = Some item /\
    b_fileId body = Some (s_fileId item) /\
    map_has (s_fileId item) (files st) = true /\
    files (snd (POST_schedule header body now genId st)) = files st /\
    s_startAt item = match b_startAt body with Some v => v | None => now end /\
    (b_endAt body = None -> s_endAt item = (s_startAt item + 3600000)%Z) /\
    (forall ds, s_days item = Some ds ->
                ds <> [] /\ Forall (fun d => (0 <= d <= 6)%Z) ds) /\
    (forall q, s_durationSeconds item = Some q -> 0 < q) /\
    (forall file, map_get (s_fileId item) (files st) = Some file ->
                  String.prefix "link/" (f_mime file) = true ->
                  s_durationSeconds item <> None).
Proof.
  unfold POST_schedule.
  destruct (negb (auth header st)); [discriminate|].
  destruct (b_fileId body) as [fileId|]; [|discriminate].
  destruct (negb (str_truthy fileId) || negb (map_has fileId (files st))) eqn:E;
    [discriminate|].
  apply orb_false_iff in E. destruct E as [_ Hhas].
  apply negb_false_iff in Hhas.
  intros _. eexists. split; [reflexivity|]. cbn [fst snd].
  assert (Hdur : forall q,
             match b_durationSeconds body with
             | JFin q0 => if negb (Qle_bool q0 0) then Some q0 else None
             | _ => None
             end = Some q -> 0 < q).
  { intros q. destruct (b_durationSeconds body) as [| | |q0]; try discriminate.
    destruct (Qle_bool q0 0) eqn:Eq; [discriminate|]. intros [= <-].
    apply Qnot_le_lt. intro Hle. apply Qle_bool_iff in Hle. congruence. }
  repeat split.
  - unfold addSchedule. cbn [schedules set_schedules s_id].
    rewrite map_get_set. now rewrite String.eqb_refl.
  - exact Hhas.
  - cbn [s_endAt s_startAt]. intros ->. reflexivity.
  - cbn [s_days] in H. destruct (b_days body) as [ds0|]; [|discriminate].
    destruct (filter _ ds0); [discriminate|]. injection H as <-. discriminate.
  - cbn [s_days] in H. destruct (b_days body) as [ds0|]; [|discriminate].
    destruct (filter (fun n => (0 <=? n)%Z && (n <=? 6)%Z) ds0) as [|d l] eqn:Ef;
      [discriminate|].
    injection H as <-. rewrite <- Ef. apply Forall_forall. intros x Hx.
    apply filter_In in Hx. destruct Hx as [_ Hx].
    apply andb_true_iff in Hx. destruct Hx as [H1 H2].
    apply Z.leb_le in H1, H2. lia.
  - cbn [s_durationSeconds]. intros q.
    destruct (match map_get fileId (files st) with
              | Some file => String.prefix "link/" (f_mime file)
              | None => false
              end); [|apply Hdur].
    destruct (match b_durationSeconds body with
              | JFin q0 => if negb (Qle_bool q0 0) then Some q0 else None
              | _ => None
              end) as [q1|] eqn:E1.
    + intros [= <-]. now apply Hdur.
    + intros [= <-]. reflexivity.
  - cbn [s_fileId s_durationSeconds]. intros file Hf Hl. rewrite Hf, Hl.
    discriminate.
Qed.
End StoredItemFacts.

(** A schedule for the demo link with a negative duration gets the default
    of ten seconds. *)
Lemma POST_schedule_created_witness :
  exists item,
    Store.created (fst (Store.POST_schedule (Some "Bearer t0"%string)
                          linkBody 5000 "g1" linkStore))
    = Some item /\
    Store.s_durationSeconds item <> None.
Proof.
  destruct (@POST_schedule_created (Some "Bearer t0"%string) linkBody
              5000 "g1" linkStore eq_refl)
    as (item & H & _ & Hid & _ & _ & _ & _ & _ & _ & Hlink).
  exists item. split; [exact H|].
  injection Hid as Hid. rewrite <- Hid in Hlink.
  exact (Hlink linkFile eq_refl eq_refl).
Defined.


(** ** Uploads and links *)

Section FilesFacts.
Import Store Files.

Lemma sanitizeName_kept (s : string) : allChars keptInName (sanitizeName s) = true.
Proof.
  induction s as [|c s IH]; simpl; [reflexivity|].
  rewrite IH, andb_true_r.
  destruct (keptInName c) eqn:E; [exact E | reflexivity].
Qed.

Lemma sanitizeName_length (s : string) :
  String.length (sanitizeName s) = String.length s.
Proof. induction s as [|c s IH]; simpl; [reflexivity | now rewrite IH]. Qed.

Lemma sanitizeName_clean (s : string) :
  allChars keptInName s = true -> sanitizeName s = s.
Proof.
  induction s as [|c s IH]; simpl; [reflexivity|].
  intro H. apply andb_true_iff in H. destruct H as [Hc Hs].
  now rewrite Hc, IH.
Qed.

Lemma linkItem_duration (id fileName url : string) (now : Z) (dur : jsnum) (q : Q) :
  f_durationSeconds (linkItem id fileName url now dur) = Some q -> 0 < q.
Proof.
  unfold linkItem. cbn [f_durationSeconds].
  destruct dur as [| | |q0]; try discriminate.
  destruct (Qle_bool q0 0) eqn:Eq; [discriminate|]. intros [= <-].
  apply Qnot_le_lt. intro Hle. apply Qle_bool_iff in Hle. congruence.
Qed.

(** X7.  What [POST /api/files] stores.  A request that is not answered with
    200 leaves the store as it was.  An item that is stored is kept under
    the generated id and is either a link (an http or https URL, external,
    with a positive duration if it has one) or an upload of at most 100 MB
    whose type starts with [image/] or [video/] and whose name is the time
    stamp, a dash and the original name with every code unit outside
    letters, digits, dot, underscore and dash replaced: the player's three
    kinds of media are the only ones the store can hold. *)
Theorem POST_files_stores_known_media (trim encodeURIComponent : string -> string)
  (diskPathFor : string -> Storage -> string)
  (header : option string) (req : Request) (now : Z) (stamp genId : string)
  (storage : Storage) (written : bool) (st : Store) :
  let reply :=
    POST_files trim encodeURIComponent diskPathFor header req now stamp genId
      storage written st in
  (fst (fst reply) <> 200%Z -> snd reply = st /\ snd (fst reply) = None) /\
  (fst (fst reply) = 200%Z ->
   exists item,
     snd (fst reply) = Some item /\
     snd reply = addFile item st /\
     map_get genId (files (snd reply)) = Some item /\
     f_id item = genId /\ f_uploadedAt item = now /\
     schedules (snd reply) = schedules st /\
     ((Player.isLink item = true /\ f_storage item = External /\
       isHttpUrl (f_url item) = true /\ str_truthy (f_name item) = true /\
       (forall q, f_durationSeconds item = Some q -> 0 < q))
      \/
      ((Player.isImage item || Player.isVideo item) = true /\
       f_storage item = storage /\ (f_size item <= maxUploadBytes)%Z /\
       f_durationSeconds item = None /\
       exists original,
         f_name item = (stamp ++ "-" ++ sanitizeName original)%string /\
         allChars keptInName (sanitizeName original) = true))).
Proof.
  intro reply. subst reply. unfold POST_files.
  destruct (negb (auth header st)); [split; [now split | discriminate]|].
  assert (Hlink : forall url name dur,
    str_truthy url = true -> isHttpUrl url = true ->
    let item := linkItem genId
                  (if str_truthy (match name with Some n => trim n | None => EmptyString end)
                   then match name with Some n => trim n | None => EmptyString end
                   else url) url now dur in
    exists item0,
      Some item = Some item0 /\ addFile item st = addFile item0 st /\
      map_get genId (files (addFile item st)) = Some item0 /\
      f_id item0 = genId /\ f_uploadedAt item0 = now /\
      schedules (addFile item st) = schedules st /\
      ((Player.isLink item0 = true /\ f_storage item0 = External /\
        isHttpUrl (f_url item0) = true /\ str_truthy (f_name item0) = true /\
        (forall q, f_durationSeconds item0 = Some q -> 0 < q))
       \/
       ((Player.isImage item0 || Player.isVideo item0) = true /\
        f_storage item0 = storage /\ (f_size item0 <= maxUploadBytes)%Z /\
        f_durationSeconds item0 = None /\
        exists original,
          f_name item0 = (stamp ++ "-" ++ sanitizeName original)%string /\
          allChars keptInName (sanitizeName original) = true))).
  { intros url name dur Hu Hh item. exists item.
    repeat split.
    - unfold addFile. cbn [files set_files]. subst item. cbn [f_id linkItem].
      rewrite map_get_set. now rewrite String.eqb_refl.
    - left. repeat split; try assumption.
      + subst item. cbn [f_name linkItem].
        destruct (str_truthy (match name with Some n => trim n | None => EmptyString end))
          eqn:E; assumption.
      + intros q. apply linkItem_duration. }
  destruct req as [url name dur| | |url name dur file].
  - destruct url as [url|]; [|split; [now split | discriminate]].
    destruct (str_truthy url) eqn:Hu; [|split; [now split | discriminate]].
    destruct (isHttpUrl url) eqn:Hh; [|split; [now split | discriminate]].
    cbn [negb fst snd]. split; [congruence|]. intros _.
    exact (Hlink url name dur Hu Hh).
  - split; [now split | discriminate].
  - split; [now split | discriminate].
  - destruct (optstr_truthy url) eqn:Hu.
    + destruct url as [url|]; [|discriminate]. simpl in Hu.
      destruct (isHttpUrl url) eqn:Hh; [|split; [now split | discriminate]].
      cbn [negb fst snd]. split; [congruence|]. intros _.
      exact (Hlink url name dur Hu Hh).
    + destruct file as [file|]; [|split; [now split | discriminate]].
      destruct (Z.ltb_spec maxUploadBytes (u_size file)) as [Hbig|Hsize];
        [split; [now split | discriminate]|].
      destruct (String.prefix "image/"
                  (if str_truthy (u_type file) then u_type file
                   else "application/octet-stream"%string)
                || String.prefix "video/"
                     (if str_truthy (u_type file) then u_type file
                      else "application/octet-stream"%string)) eqn:Ht;
        [|split; [now split | discriminate]].
      destruct (u_readable file); [|split; [now split | discriminate]].
      destruct written; [|split; [now split | discriminate]].
      cbn [negb fst snd]. split; [congruence|]. intros _.
      eexists. repeat split.
      * unfold addFile. cbn [files set_files f_id].
        rewrite map_get_set. now rewrite String.eqb_refl.
      * right. repeat split.
        -- exact Ht.
        -- exact Hsize.
        -- exists (u_name file). split; [reflexivity | apply sanitizeName_kept].
Qed.
End FilesFacts.

(** ** Saving and loading *)

Section RestartFacts.
Import Store.

Lemma fold_conditional_set (V : Type) (p : string * V -> bool)
  (l : list (string * V)) :
  forall acc : JsMap V,
    NoDup (map fst acc ++ map fst l) ->
    fold_left (fun m kv => if p kv then map_set (fst kv) (snd kv) m else m) l acc
    = acc ++ filter p l.
Proof.
  induction l as [|[k v] l IH]; intros acc Hnd; simpl.
  - now rewrite app_nil_r.
  - simpl in Hnd.
    assert (Hfresh : map_has k acc = false).
    { destruct (map_has k acc) eqn:E; [|reflexivity].
      apply map_has_In in E. destruct E as [v0 Hin].
      apply NoDup_remove_2 in Hnd. destruct Hnd.
      apply in_or_app. left. change k with (fst (k, v0)). now apply in_map. }
    destruct (p (k, v)).
    + rewrite (map_set_fresh _ _ _ Hfresh). rewrite IH.
      * now rewrite <- app_assoc.
      * rewrite map_app. simpl. now rewrite <- app_assoc.
    + apply IH. now apply NoDup_remove_1 in Hnd.
Qed.

(** X8.  A restart: the store is saved, and a fresh process loads the snapshot
    into its own store [fresh].  The files that come back are those still
    found on disk and the links, the schedules those of the files that
    came back, both in their order; the player settings come back as they
    were.  Tokens and the password are not part of the snapshot: they are
    those of the fresh process. *)
Theorem restart_keeps_what_is_on_disk (existsSync : string -> bool)
  (st fresh : Store) :
  unique_keys (files st) -> unique_keys (schedules st) ->
  let st' := loadStoreFromDisk existsSync (Some (saveStoreToDisk st)) fresh in
  files st' = filter (fun kv => restorable existsSync (snd kv)) (files st) /\
  schedules st'
  = filter (fun kv => map_has (s_fileId (snd kv)) (files st')) (schedules st) /\
  playerSettings st' = playerSettings st /\
  tokens st' = tokens fresh /\
  adminPassword st' = adminPassword fresh /\
  ((forall k f, In (k, f) (files st) -> restorable existsSync f = true) ->
   refs_ok st ->
   files st' = files st /\ schedules st' = schedules st).
Proof.
  intros Hf Hs st'.
  assert (Efiles : files st'
                   = filter (fun kv => restorable existsSync (snd kv)) (files st)).
  { subst st'. unfold loadStoreFromDisk, saveStoreToDisk. cbn.
    unfold restoreFiles.
    now rewrite (fold_conditional_set
                   (fun kv => restorable existsSync (snd kv)) (files st) []). }
  assert (Eschedules : schedules st'
            = filter (fun kv => map_has (s_fileId (snd kv)) (files st'))
                     (schedules st)).
  { rewrite Efiles. subst st'. unfold loadStoreFromDisk, saveStoreToDisk. cbn.
    unfold restoreSchedules at 1.
    rewrite (fold_conditional_set
               (fun kv => map_has (s_fileId (snd kv))
                            (restoreFiles existsSync (files st)))
               (schedules st) []) by exact Hs.
    simpl. unfold restoreFiles.
    now rewrite (fold_conditional_set
                   (fun kv => restorable existsSync (snd kv)) (files st) []). }
  split; [exact Efiles|]. split; [exact Eschedules|].
  split; [|split; [|split]].
  - subst st'. unfold loadStoreFromDisk, saveStoreToDisk. cbn.
    unfold spread. cbn. now destruct (playerSettings st).
  - reflexivity.
  - reflexivity.
  - intros Hall Hrefs.
    assert (E : files st' = files st).
    { rewrite Efiles. apply forallb_filter_id. apply forallb_forall.
      intros [k f] Hin. simpl. now apply (Hall k f). }
    split; [exact E|].
    rewrite Eschedules, E. apply forallb_filter_id. apply forallb_forall.
    intros [k s] Hin. simpl. now apply (Hrefs k s).
Qed.
End RestartFacts.

(** The demo store comes back whole when its upload is still on disk; the
    fresh process has no token. *)
Lemma restart_keeps_what_is_on_disk_witness :
  let st' := Store.loadStoreFromDisk (fun _ => true)
               (Some (Store.saveStoreToDisk loggedInStore))
               (Store.emptyStore "aiarkp@123") in
  Store.files st' = Store.files loggedInStore /\
  Store.schedules st' = Store.schedules loggedInStore /\
  Store.tokens st' = [].
Proof.
  assert (Hf : unique_keys (Store.files loggedInStore)).
  { constructor; [intros [] | constructor]. }
  assert (Hs : unique_keys (Store.schedules loggedInStore)).
  { constructor; [intros [] | constructor]. }
  destruct (@restart_keeps_what_is_on_disk (fun _ => true) loggedInStore
              (Store.emptyStore "aiarkp@123") Hf Hs)
    as (_ & _ & _ & Ht & _ & Hall).
  destruct Hall as [E1 E2].
  - intros k f [H|[]]. now inversion H.
  - intros k s [H|[]]. now inversion H.
  - repeat split; assumption.
Defined.

(** ** Ties in the playlist *)

Section KeySortFacts.
Variable A : Type.
Variable key : A -> Z.

Lemma insert_sorted_filter_key (x : A) (l : list A) (k : Z) :
  filter (fun a => (key a =? k)%Z)
         (insert_sorted (fun a b => (key a - key b)%Z) x l)
  = if (key x =? k)%Z then x :: filter (fun a => (key a =? k)%Z) l
    else filter (fun a => (key a =? k)%Z) l.
Proof.
  induction l as [|y l IH]; simpl.
  - reflexivity.
  - destruct (Z.leb_spec (key x - key y) 0) as [Hle|Hgt]; simpl.
    + reflexivity.
    + rewrite IH.
      destruct (Z.eqb_spec (key x) k) as [Hx|Hx]; [|reflexivity].
      destruct (Z.eqb_spec (key y) k) as [Hy|Hy]; [lia | reflexivity].
Qed.

(** Sorting by a key keeps the elements of equal key in their order. *)
Lemma array_sort_stable (l : list A) (k : Z) :
  filter (fun a => (key a =? k)%Z) (array_sort (fun a b => (key a - key b)%Z) l)
  = filter (fun a => (key a =? k)%Z) l.
Proof.
  induction l as [|x l IH]; simpl; [reflexivity|].
  rewrite insert_sorted_filter_key, IH. reflexivity.
Qed.
End KeySortFacts.

Lemma filter_swap (A : Type) (f g : A -> bool) (l : list A) :
  filter f (filter g l) = filter g (filter f l).
Proof.
  induction l as [|x l IH]; simpl; [reflexivity|].
  destruct (f x) eqn:Ef, (g x) eqn:Eg; simpl; rewrite ?Ef, ?Eg, IH; reflexivity.
Qed.

Section PlaylistOrderFacts.
Import Store Player.
Variable LocalTZA : Z -> Z.
Variable StringToNumber : string -> jsnum.

(** X9.  The playlist a player resolves from the schedule route's answer is
    sorted by [order], and the rules of one [order] value play in the order
    in which their schedules were first stored: both sorts are stable. *)
Theorem playlist_ties_keep_creation_order (now : Z) (st : Store) (k : Z) :
  StronglySorted (fun a b => (s_order a <= s_order b)%Z)
    (activePlaylist LocalTZA StringToNumber now (GET_schedule st)) /\
  filter (fun s => (s_order s =? k)%Z)
         (activePlaylist LocalTZA StringToNumber now (GET_schedule st))
  = filter (fun s => (s_order s =? k)%Z)
      (filter (fun s => inTimeWindow StringToNumber (minuteOfDay LocalTZA now)
                          (s_startTime s) (s_endTime s))
         (filter (onDay (getDay LocalTZA now))
            (filter (inActiveWindow now) (map_values (schedules st))))).
Proof.
  split; [apply activePlaylist_sorted|].
  unfold activePlaylist. rewrite (array_sort_stable s_order).
  rewrite !(filter_swap (fun s => (s_order s =? k)%Z)).
  unfold GET_schedule. rewrite (array_sort_stable s_order). reflexivity.
Qed.
End PlaylistOrderFacts.

(** ** The command queue in arrival order *)

Section QueueOrderFacts.
Import Commands.
Variable Payload : Type.
Variable StringToNumber : string -> jsnum.

Lemma StronglySorted_app (l1 l2 : list Z) :
  StronglySorted Z.le (l1 ++ l2) <->
  StronglySorted Z.le l1 /\ StronglySorted Z.le l2 /\
  (forall x y, In x l1 -> In y l2 -> (x <= y)%Z).
Proof.
  induction l1 as [|a l1 IH]; simpl.
  - split.
    + intro H. repeat split; [constructor | exact H | intros x y []].
    + intros (_ & H & _). exact H.
  - split.
    + intro H. inversion H as [|? ? Hs Hall]; subst.
      apply IH in Hs. destruct Hs as (H1 & H2 & H3).
      rewrite Forall_forall in Hall.
      repeat split.
      * constructor; [exact H1|]. apply Forall_forall. intros x Hx.
        apply Hall. apply in_or_app. now left.
      * exact H2.
      * intros x y [<-|Hx] Hy; [|now apply H3].
        apply Hall. apply in_or_app. now right.
    + intros (H1 & H2 & H3). inversion H1 as [|? ? Hs Hall]; subst.
      rewrite Forall_forall in Hall.
      constructor.
      * apply IH. repeat split; [exact Hs | exact H2|].
        intros x y Hx Hy. apply H3; [now right | exact Hy].
      * apply Forall_forall. intros x Hx. apply in_app_or in Hx.
        destruct Hx as [Hx|Hx]; [now apply Hall | apply H3; [now left | exact Hx]].
Qed.

Lemma skipn_In (B : Type) (n : nat) (l : list B) (x : B) :
  In x (skipn n l) -> In x l.
Proof.
  intro H. rewrite <- (firstn_skipn n l). apply in_or_app. now right.
Qed.

Lemma StronglySorted_skipn (n : nat) (l : list Z) :
  StronglySorted Z.le l -> StronglySorted Z.le (skipn n l).
Proof.
  intro H. rewrite <- (firstn_skipn n l) in H.
  apply StronglySorted_app in H. tauto.
Qed.

Lemma serve_sorted_from (requests : list (option (Body Payload) * Z)) :
  forall acc : list (Command Payload),
    StronglySorted Z.le (map (@ts Payload) acc ++ map snd requests) ->
    StronglySorted Z.le
      (map (@ts Payload)
           (fold_left (fun q r => snd (POST (fst r) (snd r) q)) requests acc)).
Proof.
  induction requests as [|[body now] requests IH]; intros acc H; simpl.
  - simpl in H. now rewrite app_nil_r in H.
  - apply IH. simpl in H. apply StronglySorted_app in H.
    destruct H as (H1 & H2 & H3). inversion H2 as [|? ? Hs Hall]; subst.
    rewrite Forall_forall in Hall.
    unfold POST. destruct body as [b|]; cbn [snd].
    + set (c := {| ts := now; payload := match b with Wrapped d => d | Plain p => p end |}).
      assert (Hfull : StronglySorted Z.le
                        (map (@ts Payload) (acc ++ [c]) ++ map snd requests)).
      { rewrite map_app. simpl. rewrite <- app_assoc. simpl.
        apply StronglySorted_app. repeat split; [exact H1 | exact H2 | exact H3]. }
      destruct (200 <? List.length (acc ++ [c]))%nat; [|exact Hfull].
      apply StronglySorted_app in Hfull. destruct Hfull as (F1 & F2 & F3).
      apply StronglySorted_app. repeat split.
      * rewrite <- skipn_map. now apply StronglySorted_skipn.
      * exact F2.
      * intros x y Hx Hy. apply F3; [|exact Hy].
        rewrite <- skipn_map in Hx. now apply skipn_In in Hx.
    + apply StronglySorted_app. repeat split; [exact H1 | exact Hs|].
      intros x y Hx Hy. apply H3; [exact Hx | now right].
Qed.

Lemma sorted_filter_suffix (p : Command Payload -> bool)
  (q : list (Command Payload)) :
  (forall a b, p a = true -> (ts a <= ts b)%Z -> p b = true) ->
  StronglySorted Z.le (map (@ts Payload) q) ->
  exists older, q = older ++ filter p q.
Proof.
  intros Hup. induction q as [|a q IH]; intro Hs; simpl.
  - now exists [].
  - inversion Hs as [|? ? Hs' Hall]; subst. rewrite Forall_forall in Hall.
    destruct (p a) eqn:Ea.
    + exists []. simpl. f_equal. symmetry. apply forallb_filter_id.
      apply forallb_forall. intros b Hb. apply (Hup a b Ea).
      apply Hall. now apply in_map.
    + destruct (IH Hs') as [older Ho]. exists (a :: older). simpl. now f_equal.
Qed.

Lemma js_gt_upward (since : jsnum) (x y : Z) :
  js_gt (of_Z x) since = true -> (x <= y)%Z -> js_gt (of_Z y) since = true.
Proof.
  unfold js_gt, js_lt, of_Z. destruct since as [| | |q]; try (intros; assumption).
  intros H Hxy. apply negb_true_iff in H. apply negb_true_iff.
  destruct (Qle_bool (inject_Z y) q) eqn:E; [|reflexivity].
  apply Qle_bool_iff in E.
  assert (Hx : inject_Z x <= q).
  { apply Qle_trans with (inject_Z y); [now rewrite <- Zle_Qle | exact E]. }
  apply Qle_bool_iff in Hx. congruence.
Qed.

(** X10.  When the server's clock does not go back, the queue is in time-stamp
    order, and every GET, with or without [since] and whatever [since]
    holds, answers a tail of the queue: the newest commands, without gaps,
    in the order they arrived. *)
Theorem commands_answered_in_arrival_order
  (requests : list (option (Body Payload) * Z)) :
  StronglySorted Z.le (map snd requests) ->
  StronglySorted Z.le (map (@ts Payload) (serve requests)) /\
  (forall sinceStr,
      exists older,
        serve requests = older ++ GET StringToNumber sinceStr (serve requests)) /\
  (List.length (GET StringToNumber None (serve requests))
   = Nat.min 20 (List.length (serve requests))).
Proof.
  intro Hclock.
  assert (Hs : StronglySorted Z.le (map (@ts Payload) (serve requests))).
  { unfold serve. apply serve_sorted_from. exact Hclock. }
  split; [exact Hs|]. split.
  - intro sinceStr. unfold GET.
    destruct (js_gt _ (JFin 0)).
    + apply sorted_filter_suffix; [|exact Hs].
      intros a b. apply js_gt_upward.
    + exists (firstn (List.length (serve requests) - 20) (serve requests)).
      symmetry. apply firstn_skipn.
  - assert (E : GET StringToNumber None (serve requests)
               = skipn (List.length (serve requests) - 20) (serve requests))
      by reflexivity.
    rewrite E, length_skipn. lia.
Qed.
End QueueOrderFacts.

(** Three commands posted at 100, 200 and 300. *)
Lemma commands_answered_in_arrival_order_witness :
  exists older,
    Commands.serve [(Some (Commands.Plain powerOff), 100%Z);
                    (Some (Commands.Plain powerOn), 200%Z);
                    (Some (Commands.Wrapped powerOff), 300%Z)]
    = older ++ Commands.GET Js.decimalToNumber (Some "150"%string)
                 (Commands.serve [(Some (Commands.Plain powerOff), 100%Z);
                                  (Some (Commands.Plain powerOn), 200%Z);
                                  (Some (Commands.Wrapped powerOff), 300%Z)]).
Proof.
  apply (@commands_answered_in_arrival_order (option Player.Message)
           Js.decimalToNumber
           [(Some (Commands.Plain powerOff), 100%Z);
            (Some (Commands.Plain powerOn), 200%Z);
            (Some (Commands.Wrapped powerOff), 300%Z)]).
  simpl. repeat constructor; lia.
Defined.

(** ** Reconnecting and polling *)

Section BackoffFacts.
Import Transport.

Lemma backoffStep_bounds (d : Z) (ev : ConnEvent) :
  (initialDelay <= d <= maxDelay)%Z ->
  (initialDelay <= backoffStep d ev <= maxDelay)%Z.
Proof. unfold backoffStep, initialDelay, maxDelay. destruct ev; lia. Qed.

Lemma fold_backoff_bounds (evs : list ConnEvent) (d : Z) :
  (initialDelay <= d <= maxDelay)%Z ->
  (initialDelay <= fold_left backoffStep evs d <= maxDelay)%Z.
Proof.
  revert d. induction evs as [|ev evs IH]; intros d H; simpl; [exact H|].
  apply IH. now apply backoffStep_bounds.
Qed.

Lemma fold_backoff_retries (k : nat) (d : Z) :
  (initialDelay <= d <= maxDelay)%Z ->
  fold_left backoffStep (repeat RetryTimerFired k) d
  = Z.min (d * 2 ^ Z.of_nat k) maxDelay.
Proof.
  revert d. induction k as [|k IH]; intros d H.
  - cbn [repeat fold_left Z.of_nat]. rewrite Z.pow_0_r, Z.mul_1_r.
    unfold initialDelay, maxDelay in *. lia.
  - cbn [repeat fold_left]. rewrite IH by now apply backoffStep_bounds.
    rewrite Nat2Z.inj_succ, Z.pow_succ_r by lia.
    assert (Hp : (0 < 2 ^ Z.of_nat k)%Z) by (apply Z.pow_pos_nonneg; lia).
    unfold backoffStep, initialDelay, maxDelay in *.
    destruct (Z.le_gt_cases (d * 2) 30000) as [Hle|Hgt].
    + rewrite (Z.min_l (d * 2) 30000) by exact Hle. f_equal. lia.
    + rewrite (Z.min_r (d * 2) 30000) by lia.
      rewrite !Z.min_r; [reflexivity | nia | nia].
Qed.

(** X11.  The delay before the player connects again is always between one and
    thirty seconds, and after a socket opened the [k]-th consecutive retry
    waits [1000 * 2^k] ms, capped at thirty seconds: 1, 2, 4, 8, 16, 30,
    30, ... seconds. *)
Theorem reconnect_delay_doubles_up_to_30s (evs : list ConnEvent) (k : nat) :
  (1000 <= reconnectDelay evs <= 30000)%Z /\
  reconnectDelay (evs ++ SocketOpened :: repeat RetryTimerFired k)
  = Z.min (1000 * 2 ^ Z.of_nat k) 30000 /\
  reconnectDelay (repeat RetryTimerFired k) = Z.min (1000 * 2 ^ Z.of_nat k) 30000.
Proof.
  unfold reconnectDelay. split; [|split].
  - apply (fold_backoff_bounds evs). unfold initialDelay, maxDelay. lia.
  - rewrite fold_left_app. cbn [fold_left backoffStep].
    apply fold_backoff_retries. unfold initialDelay, maxDelay. lia.
  - apply fold_backoff_retries. unfold initialDelay, maxDelay. lia.
Qed.
End BackoffFacts.

Section PollingFacts.
Import Player Transport.
Variable StringToNumber : string -> jsnum.
Variable numberToString : Z -> string.

(** The commands a poll fetches with a positive [since] that survives the
    round trip through the query string. *)
Lemma GET_since (Payload : Type) (since : Z)
  (queue : list (Commands.Command Payload)) :
  (0 < since)%Z ->
  str_truthy (numberToString since) = true ->
  StringToNumber (numberToString since) = of_Z since ->
  Commands.GET StringToNumber (Some (numberToString since)) queue
  = filter (fun c => (since <? Commands.ts c)%Z) queue.
Proof.
  intros Hpos Ht Hn. unfold Commands.GET. rewrite Ht, Hn.
  change (JFin 0) with (of_Z 0). rewrite js_gt_of_Z.
  destruct (Z.ltb_spec 0 since) as [_|Hle]; [|lia].
  apply filter_ext. intro c. apply js_gt_of_Z.
Qed.

Lemma pollLoop_max (c : Closure) (idle : option bool)
  (commands : list (Commands.Command (option Message))) :
  forall acc,
    (snd acc <= snd (pollLoop StringToNumber c idle commands acc))%Z /\
    (forall cmd, In cmd commands -> applicable cmd = true ->
                 (Commands.ts cmd <= snd (pollLoop StringToNumber c idle commands acc))%Z).
Proof.
  unfold pollLoop.
  induction commands as [|cmd commands IH]; intros acc; simpl.
  - split; [lia | intros ? []].
  - match goal with |- context [fold_left ?f commands ?a] =>
      destruct (IH a) as [H1 H2] end.
    split.
    + destruct (Commands.payload cmd); [|exact H1].
      simpl in H1. destruct (Z.ltb_spec (snd acc) (Commands.ts cmd)); lia.
    + intros cmd' [<-|Hin] Happ.
      * unfold applicable in Happ.
        destruct (Commands.payload cmd); [|discriminate].
        simpl in H1. destruct (Z.ltb_spec (snd acc) (Commands.ts cmd)); lia.
      * now apply H2.
Qed.

Lemma pollLoop_nothing (c : Closure) (idle : option bool)
  (commands : list (Commands.Command (option Message))) (acc : Runtime * Z) :
  (forall cmd, In cmd commands -> applicable cmd = false) ->
  pollLoop StringToNumber c idle commands acc = acc.
Proof.
  unfold pollLoop. revert acc.
  induction commands as [|cmd commands IH]; intros acc H; simpl; [reflexivity|].
  assert (Hc : applicable cmd = false) by (apply H; now left).
  unfold applicable in Hc. destruct (Commands.payload cmd); [discriminate|].
  apply IH. intros cmd' Hin. apply H. now right.
Qed.

Lemma pollLoop_app (c : Closure) (idle : option bool)
  (l1 l2 : list (Commands.Command (option Message))) (acc : Runtime * Z) :
  pollLoop StringToNumber c idle (l1 ++ l2) acc
  = pollLoop StringToNumber c idle l2 (pollLoop StringToNumber c idle l1 acc).
Proof. unfold pollLoop. apply fold_left_app. Qed.

Lemma pollOnce_unfold (c : Closure) (idle : option bool) (now lastCmdTs : Z)
  (queue : list (Commands.Command (option Message))) (st : Runtime) :
  let since := if (lastCmdTs =? 0)%Z then now else lastCmdTs in
  let r := pollLoop StringToNumber c idle
             (Commands.GET StringToNumber (Some (numberToString since)) queue)
             (st, since) in
  pollOnce StringToNumber numberToString c idle now lastCmdTs queue st
  = (fst r, if (since <? snd r)%Z then snd r else lastCmdTs).
Proof.
  intros since r. unfold pollOnce. fold since. unfold pollLoop in r.
  subst r. destruct (fold_left _ _ _). reflexivity.
Qed.

(** X12.  Polling applies a command once, for a page whose time stamp is
    positive (it starts at the stored stamp or at the mount instant).
    After a poll the time stamp has not gone back, and
    in every later poll, at any instant and from any render, the commands
    that were in the queue at the first poll count for nothing: the poll
    does what it would do if the queue held only the commands that arrived
    since.  In particular a second poll of the same queue applies nothing
    and leaves the time stamp as it is. *)
Theorem poll_applies_only_new_commands (c c' : Closure) (idle idle' : option bool)
  (now now' lastCmdTs : Z)
  (queue : list (Commands.Command (option Message))) (st : Runtime) :
  (0 < lastCmdTs)%Z ->
  (forall z, z = lastCmdTs \/ In z (map (@Commands.ts _) queue) ->
             (0 < z)%Z ->
             str_truthy (numberToString z) = true /\
             StringToNumber (numberToString z) = of_Z z) ->
  let first := pollOnce StringToNumber numberToString c idle now lastCmdTs queue st in
  (lastCmdTs <= snd first)%Z /\
  (forall arrived,
      pollOnce StringToNumber numberToString c' idle' now' (snd first)
               (queue ++ arrived) (fst first)
      = pollOnce StringToNumber numberToString c' idle' now' (snd first)
                 arrived (fst first)) /\
  pollOnce StringToNumber numberToString c' idle' now' (snd first) queue (fst first)
  = first.
Proof.
  intros Hpos Hrt first. subst first. rewrite pollOnce_unfold.
  destruct (Z.eqb_spec lastCmdTs 0) as [Hz|_]; [lia|].
  destruct (Hrt lastCmdTs (or_introl eq_refl) Hpos) as [Ht Hn].
  rewrite (GET_since queue Hpos Ht Hn).
  set (commands := filter (fun c0 => (lastCmdTs <? Commands.ts c0)%Z) queue).
  destruct (pollLoop_max c idle commands (st, lastCmdTs)) as [Hge Hmax].
  set (r := pollLoop StringToNumber c idle commands (st, lastCmdTs)) in *.
  cbn [fst snd] in *.
  assert (Elast : (if (lastCmdTs <? snd r)%Z then snd r else lastCmdTs) = snd r).
  { destruct (Z.ltb_spec lastCmdTs (snd r)); lia. }
  rewrite Elast.
  assert (Hin : snd r = lastCmdTs \/ In (snd r) (map (@Commands.ts _) queue)).
  { clear -commands. subst r. unfold pollLoop.
    assert (G : forall l acc,
               (forall x, In x l -> In x queue) ->
               (snd acc = lastCmdTs \/ In (snd acc) (map (@Commands.ts _) queue)) ->
               let r := fold_left
                 (fun acc cmd =>
                    match Commands.payload cmd with
                    | Some msg =>
                        (applyCommand StringToNumber c idle (Some msg) (fst acc),
                         if (snd acc <? Commands.ts cmd)%Z
                         then Commands.ts cmd else snd acc)
                    | None => acc
                    end) l acc in
               snd r = lastCmdTs \/ In (snd r) (map (@Commands.ts _) queue)).
    { induction l as [|cmd l IH]; intros acc Hsub Hacc; simpl; [exact Hacc|].
      apply IH; [intros x Hx; apply Hsub; now right|].
      destruct (Commands.payload cmd); [|exact Hacc]. simpl.
      destruct (snd acc <? Commands.ts cmd)%Z; [|exact Hacc].
      right. apply in_map. apply Hsub. now left. }
    apply G; [|now left].
    intros x Hx. unfold commands in Hx. now apply filter_In in Hx. }
  assert (Hrpos : (0 < snd r)%Z) by lia.
  destruct (Hrt (snd r) Hin Hrpos) as [Ht' Hn'].
  assert (Hold : forall acc,
             pollLoop StringToNumber c' idle'
               (filter (fun c0 => (snd r <? Commands.ts c0)%Z) queue) acc = acc).
  { intro acc. apply pollLoop_nothing.
    intros cmd Hcmd. apply filter_In in Hcmd. destruct Hcmd as [Hq Hlt].
    apply Z.ltb_lt in Hlt.
    destruct (applicable cmd) eqn:Ea; [|reflexivity].
    assert (Hc : In cmd commands).
    { unfold commands. apply filter_In. split; [exact Hq|].
      apply Z.ltb_lt. lia. }
    specialize (Hmax cmd Hc Ea). lia. }
  split; [exact Hge|]. split.
  - intro arrived. rewrite !pollOnce_unfold.
    destruct (Z.eqb_spec (snd r) 0) as [Hz|_]; [lia|].
    rewrite !(GET_since _ Hrpos Ht' Hn'). rewrite filter_app.
    rewrite pollLoop_app, Hold. reflexivity.
  - rewrite pollOnce_unfold.
    destruct (Z.eqb_spec (snd r) 0) as [Hz|_]; [lia|].
    rewrite (GET_since queue Hrpos Ht' Hn'), Hold.
    cbn [fst snd]. rewrite Z.ltb_irrefl. now destruct r.
Qed.
End PollingFacts.

(** A player whose last command was stamped 150 polls twice. *)
Lemma poll_applies_only_new_commands_witness :
  let st := showing [olderFile] 0 Store.defaultPlayerSettings true in
  let first := Transport.pollOnce Js.decimalToNumber Transport.decimalString
                 (Player.closure_of st) None 5000 150 messageQueue st in
  snd first = 300%Z /\
  Transport.pollOnce Js.decimalToNumber Transport.decimalString
    (Player.closure_of st) None 7000 (snd first) messageQueue (fst first)
  = first.
Proof.
  intros st first. split; [reflexivity|].
  apply (@poll_applies_only_new_commands Js.decimalToNumber Transport.decimalString
           (Player.closure_of st) (Player.closure_of st) None None 5000 7000 150
           messageQueue st); [lia|].
  intros z [->|[<-|[<-|[<-|[]]]]] _; split; reflexivity.
Defined.

(** ** What the player and the admin page show *)

Section ShownFileFacts.
Import Store Player.
Variable LocalTZA : Z -> Z.
Variable StringToNumber : string -> jsnum.

Lemma findFile_some (id : string) (fs : list FileItem) :
  (exists f, In f fs /\ f_id f = id) ->
  exists f, findFile id fs = Some f /\ f_id f = id /\ In f fs.
Proof.
  unfold findFile. intros (f0 & Hin & Hid).
  destruct (find (fun f => String.eqb (f_id f) id) fs) as [f|] eqn:E.
  - apply find_some in E. destruct E as [Hf He]. apply String.eqb_eq in He.
    now exists f.
  - apply (find_none _ _ E) in Hin. rewrite Hid, String.eqb_refl in Hin.
    discriminate.
Qed.

Lemma In_map_values (V : Type) (v : V) (m : JsMap V) :
  In v (map_values m) <-> exists k, In (k, v) m.
Proof.
  unfold map_values. rewrite in_map_iff. split.
  - intros ([k v0] & Hv & Hin). simpl in Hv. subst. now exists k.
  - intros (k & Hin). now exists (k, v).
Qed.

(** X13.  In a store whose schedules refer to its files, every entry of the list
    a player resolves has its file among the files the player fetched: at
    every index of the list the player finds a file to show, in schedule
    mode as well as in fallback mode. *)
Theorem consistent_store_entries_resolve (now : Z) (st : Store) (i : nat)
  (item : DisplayItem) :
  refs_ok st -> keyed_by_id st ->
  nth_error (resolve LocalTZA StringToNumber now st) i = Some item ->
  exists f,
    currentFile (resolve LocalTZA StringToNumber now st) i (GET_files st)
    = Ok (Some f) /\
    f_id f = item_fileId item /\
    In f (map_values (Store.files st)).
Proof.
  intros Hrefs Hkeys Hnth.
  assert (Hfile : exists f, In f (GET_files st) /\ f_id f = item_fileId item).
  { apply nth_error_In in Hnth. unfold resolve, displayList in Hnth.
    destruct (activePlaylist LocalTZA StringToNumber now (GET_schedule st))
      as [|s0 pl] eqn:Epl.
    - apply in_map_iff in Hnth. destruct Hnth as (f & <- & Hin).
      exists f. split; [exact Hin | reflexivity].
    - apply in_map_iff in Hnth. destruct Hnth as (s & <- & Hin).
      rewrite <- Epl in Hin. apply activePlaylist_filters in Hin.
      destruct Hin as [Hin _]. unfold GET_schedule in Hin.
      apply array_sort_In in Hin. apply In_map_values in Hin.
      destruct Hin as [k Hin]. specialize (Hrefs k s Hin).
      apply map_has_In in Hrefs. destruct Hrefs as [f Hf].
      exists f. split.
      + unfold GET_files. apply array_sort_In. apply In_map_values.
        now exists (s_fileId s).
      + simpl. now apply Hkeys. }
  apply findFile_some in Hfile. destruct Hfile as (f & Hfind & Hid & Hin).
  exists f. split; [|split; [exact Hid|]].
  - unfold currentFile.
    destruct (resolve LocalTZA StringToNumber now st) as [|x dl] eqn:E.
    + destruct i; discriminate Hnth.
    + rewrite Hnth, Hfind. reflexivity.
  - unfold GET_files in Hin. now apply array_sort_In in Hin.
Qed.

(** X14.  The admin page's prediction is the file a player shows at index 0 of
    the display list built from the same playlist and files. *)
Theorem admin_predicts_first_shown_file (playlist : list ScheduleItem)
  (fs : list FileItem) :
  currentFile (displayList playlist fs) 0 fs
  = Ok (Admin.predictedNowPlaying playlist fs).
Proof.
  unfold currentFile, displayList, Admin.predictedNowPlaying.
  destruct playlist as [|item playlist]; simpl.
  - destruct fs as [|f fs]; simpl; [reflexivity|].
    unfold findFile. simpl. now rewrite String.eqb_refl.
  - reflexivity.
Qed.

End ShownFileFacts.

(** ** Commands that only change the display *)

Section DisplayCommandFacts.
Import Store Player.
Variable StringToNumber : string -> jsnum.
Variable v : Variant.

Lemma mediaDepsSame_same (st st' : Runtime) :
  activeIndex st' = activeIndex st ->
  files st' = files st -> playlist st' = playlist st ->
  powered st' = powered st ->
  mediaDepsSame st st' = true.
Proof.
  intros Hi Hf Hp Hw. unfold mediaDepsSame, depItem, currentDisplayList.
  rewrite Hi, Hf, Hp, Hw. rewrite !Nat.eqb_refl, Bool.eqb_reflx. simpl.
  destruct (nth_error _ _) as [i|]; simpl; [|reflexivity].
  rewrite String.eqb_refl. simpl.
  destruct (item_durationSeconds i); [apply Qeq_bool_refl | reflexivity].
Qed.

End DisplayCommandFacts.


(** ** Timers always wait *)

Section WaitFacts.
Import Store Player.
Variable LocalTZA : Z -> Z.
Variable StringToNumber : string -> jsnum.
Variable v : Variant.
















End WaitFacts.


(** ** Moving through the list *)

Section NavigationFacts.
Import Store Player.
Variable v : Variant.

Lemma advance_keeps (c : Closure) (idle : option bool) (st : Runtime) :
  files (advance c idle st) = files st /\
  playlist (advance c idle st) = playlist st /\
  powered (advance c idle st) = powered st.
Proof.
  unfold advance. destruct (c_displayList c); [now repeat split|].
  destruct (match nth_error _ _ with Some _ => _ | None => _ end) as [f|];
    [|now repeat split].
  destruct (isVideo f); [|now repeat split].
  destruct idle as [[|]|]; now repeat split.
Qed.

Lemma goPrev_keeps (c : Closure) (idle : option bool) (st : Runtime) :
  files (goPrev c idle st) = files st /\
  playlist (goPrev c idle st) = playlist st /\
  powered (goPrev c idle st) = powered st.
Proof.
  unfold goPrev. destruct (c_displayList c); [now repeat split|].
  destruct (match nth_error _ _ with Some _ => _ | None => _ end) as [f|];
    [|now repeat split].
  destruct (isVideo f); [|now repeat split].
  destruct idle as [[|]|]; now repeat split.
Qed.

Lemma advance_index (c : Closure) (idle : option bool) (st : Runtime) :
  c_displayList c <> [] -> idle <> Some false ->
  activeIndex (advance c idle st)
  = ((c_activeIndex c + 1) mod List.length (c_displayList c))%nat.
Proof.
  intros Hne Hidle. unfold advance.
  destruct (c_displayList c) as [|x dl]; [congruence|].
  destruct (match nth_error _ _ with Some _ => _ | None => _ end) as [f|];
    [|reflexivity].
  destruct (isVideo f); [|reflexivity].
  destruct idle as [[|]|]; [reflexivity | congruence | reflexivity].
Qed.

Lemma goPrev_index (c : Closure) (idle : option bool) (st : Runtime) :
  c_displayList c <> [] -> idle <> Some false ->
  activeIndex (goPrev c idle st)
  = ((c_activeIndex c + List.length (c_displayList c) - 1)
       mod List.length (c_displayList c))%nat.
Proof.
  intros Hne Hidle. unfold goPrev.
  destruct (c_displayList c) as [|x dl]; [congruence|].
  destruct (match nth_error _ _ with Some _ => _ | None => _ end) as [f|];
    [|reflexivity].
  destruct (isVideo f); [|reflexivity].
  destruct idle as [[|]|]; [reflexivity | congruence | reflexivity].
Qed.

Lemma advanceTimes_list (k : nat) (idle : option bool) (st : Runtime) :
  currentDisplayList (advanceTimes k idle st) = currentDisplayList st.
Proof.
  induction k as [|k IH]; simpl; [reflexivity|].
  unfold currentDisplayList in *.
  destruct (advance_keeps (closure_of (advanceTimes k idle st)) idle
                          (advanceTimes k idle st)) as (-> & -> & _).
  exact IH.
Qed.

(** X18.  Moving through a non-empty list when the switch is immediate (the
    idle video tag is ready, or there is none to wait for): [next] goes to
    the following index and wraps around, so the index is within the list
    afterwards even if it was not before; [k + 1] steps from index [i]
    lead to [(i + k + 1) mod n], so a full round from an index within the
    list comes back to it; and [prev] undoes [next]. *)
Theorem next_and_prev_cycle (idle : option bool) (st : Runtime) (k : nat) :
  currentDisplayList st <> [] -> idle <> Some false ->
  let n := List.length (currentDisplayList st) in
  (activeIndex (advance (closure_of st) idle st) < n)%nat /\
  (activeIndex (goPrev (closure_of st) idle st) < n)%nat /\
  activeIndex (advanceTimes (S k) idle st) = ((activeIndex st + S k) mod n)%nat /\
  ((activeIndex st < n)%nat ->
   activeIndex (advanceTimes n idle st) = activeIndex st /\
   activeIndex (goPrev (closure_of (advance (closure_of st) idle st)) idle
                       (advance (closure_of st) idle st))
   = activeIndex st).
Proof.
  intros Hne Hidle n.
  assert (Hn : (0 < n)%nat).
  { subst n. destruct (currentDisplayList st); [congruence | simpl; lia]. }
  assert (Hn0 : n <> 0%nat) by lia.
  assert (Hsteps : forall j,
             activeIndex (advanceTimes (S j) idle st)
             = ((activeIndex st + S j) mod n)%nat).
  { induction j as [|j IH].
    - simpl. rewrite advance_index by assumption. reflexivity.
    - change (advanceTimes (S (S j)) idle st)
        with (advance (closure_of (advanceTimes (S j) idle st)) idle
                      (advanceTimes (S j) idle st)).
      rewrite advance_index; [|cbn [closure_of c_displayList];
                               now rewrite advanceTimes_list | assumption].
      cbn [closure_of c_displayList c_activeIndex].
      rewrite advanceTimes_list, IH. fold n.
      rewrite Nat.Div0.add_mod_idemp_l. f_equal. lia. }
  split; [|split; [|split]].
  - rewrite advance_index by assumption. now apply Nat.mod_upper_bound.
  - rewrite goPrev_index by assumption. now apply Nat.mod_upper_bound.
  - apply Hsteps.
  - intro Hi. split.
    + destruct n as [|m] eqn:En; [lia|]. rewrite Hsteps.
      replace (activeIndex st + S m)%nat with (activeIndex st + 1 * S m)%nat by lia.
      rewrite Nat.Div0.mod_add. now apply Nat.mod_small.
    + rewrite goPrev_index; [| |assumption].
      2:{ cbn [closure_of c_displayList]. unfold currentDisplayList.
          destruct (advance_keeps (closure_of st) idle st) as (-> & -> & _).
          exact Hne. }
      cbn [closure_of c_displayList c_activeIndex].
      assert (El : currentDisplayList (advance (closure_of st) idle st)
                   = currentDisplayList st).
      { unfold currentDisplayList.
        now destruct (advance_keeps (closure_of st) idle st) as (-> & -> & _). }
      rewrite El, advance_index by assumption.
      cbn [closure_of c_displayList c_activeIndex]. fold n.
      destruct (Nat.eq_dec (activeIndex st + 1) n) as [E|E].
      * rewrite E, Nat.Div0.mod_same. simpl.
        rewrite Nat.mod_small; lia.
      * rewrite (Nat.mod_small (activeIndex st + 1) n) by lia.
        replace (activeIndex st + 1 + n - 1)%nat
          with (activeIndex st + 1 * n)%nat by lia.
        rewrite Nat.Div0.mod_add. now apply Nat.mod_small.
Qed.

(** Firing a timeout that does not move the index leaves the page without
    a timer: the media effect does not run again. *)
Lemma timeoutFires_same_index (h : positive) (idle : option bool)
  (video : option jsnum) (st : Runtime) (t : Timeout) :
  find (fun t => Pos.eqb (handle t) h) (timeouts st) = Some t ->
  activeIndex (advance (callback t) idle
                 (with_timer (advanceTimerRef st) (clearTimeout h (timeouts st))
                             (nextHandle st) st))
  = activeIndex st ->
  one_timer st ->
  exists st',
    Transport.timeoutFires v h idle video st = Ok st' /\
    activeIndex st' = activeIndex st /\
    timeouts st' = [].
Proof.
  intros Hfind Hidx Hone.
  assert (Hfire : fireTimeout h idle st
                  = advance (callback t) idle
                      (with_timer (advanceTimerRef st)
                                  (clearTimeout h (timeouts st))
                                  (nextHandle st) st)).
  { unfold fireTimeout. now rewrite Hfind. }
  exists (fireTimeout h idle st).
  rewrite Hfire in *. split; [|split; [exact Hidx|]].
  - unfold Transport.timeoutFires. rewrite Hfire, Hidx, Nat.eqb_refl.
    destruct (advance_keeps (callback t) idle
                (with_timer (advanceTimerRef st) (clearTimeout h (timeouts st))
                            (nextHandle st) st)) as (Hf & Hp & Hw).
    now rewrite (@mediaDepsSame_same st _ Hidx Hf Hp Hw).
  - destruct (advance_same_timer (callback t) idle
                (with_timer (advanceTimerRef st) (clearTimeout h (timeouts st))
                            (nextHandle st) st)) as [-> _].
    cbn [timeouts with_timer].
    apply find_some in Hfind. destruct Hfind as [Hin Hh].
    destruct Hone as [E|(t0 & E & _)]; rewrite E in *; [destruct Hin|].
    destruct Hin as [<-|[]]. unfold clearTimeout. simpl. now rewrite Hh.
Qed.

(** X19.  A list of one item: when its timeout fires, the page stays on the item
    and no new timeout is armed; the page rests on the item, without a
    timer, until a dependency of the media effect changes. *)
Theorem single_item_timer_fires_once (h : positive) (idle : option bool)
  (video : option jsnum) (st : Runtime) (t : Timeout) :
  find (fun t => Pos.eqb (handle t) h) (timeouts st) = Some t ->
  List.length (c_displayList (callback t)) = 1%nat ->
  activeIndex st = 0%nat ->
  one_timer st ->
  exists st',
    Transport.timeoutFires v h idle video st = Ok st' /\
    activeIndex st' = 0%nat /\
    timeouts st' = [].
Proof.
  intros Hfind Hlen Hidx Hone.
  destruct (@timeoutFires_same_index h idle video st t Hfind) as (st' & H1 & H2 & H3).
  - rewrite Hidx. unfold advance.
    destruct (c_displayList (callback t)) as [|x [|y dl]]; try discriminate.
    cbn [List.length]. rewrite Nat.mod_1_r.
    destruct (match nth_error _ _ with Some _ => _ | None => _ end) as [f|];
      [|reflexivity].
    destruct (isVideo f); [|reflexivity].
    destruct idle as [[|]|]; try reflexivity. exact Hidx.
  - exact Hone.
  - exists st'. rewrite Hidx in H2. now repeat split.
Qed.

End NavigationFacts.

(** ** Deleting a file *)

Section DeleteFacts.
Import Store Player.
Variable LocalTZA : Z -> Z.
Variable StringToNumber : string -> jsnum.

(** X21.  After [DELETE /api/files/[id]] succeeded, no player that fetches the
    lists again shows the file: no entry of the list it resolves, at any
    instant, refers to the deleted id, in schedule mode or in fallback
    mode; the other files are kept in their order.  A request that is
    refused leaves the store as it was. *)
Theorem deleted_file_is_never_shown (header : option string) (id : string)
  (st : Store) :
  keyed_by_id st ->
  (fst (DELETE_file header id st) = 200%Z ->
   (forall now item,
       In item (resolve LocalTZA StringToNumber now (snd (DELETE_file header id st))) ->
       item_fileId item <> id) /\
   map_get id (Store.files (snd (DELETE_file header id st))) = None /\
   Store.files (snd (DELETE_file header id st))
   = filter (fun kv => negb (String.eqb (fst kv) id)) (Store.files st)) /\
  (fst (DELETE_file header id st) <> 200%Z -> snd (DELETE_file header id st) = st).
Proof.
  intro Hkeys. unfold DELETE_file.
  destruct (negb (auth header st)); [split; [discriminate | reflexivity]|].
  destruct (map_has id (Store.files st)) eqn:Hhas;
    [|split; [discriminate | reflexivity]].
  cbn [negb fst snd]. split; [|congruence]. intros _.
  unfold removeFile. rewrite Hhas. cbn [snd].
  cbn [Store.files set_schedules set_files].
  split; [|split; [|reflexivity]].
  - intros now item Hin. unfold resolve, displayList in Hin.
    destruct (activePlaylist LocalTZA StringToNumber now _) as [|s0 pl] eqn:Epl.
    + apply in_map_iff in Hin. destruct Hin as (f & <- & Hf).
      unfold GET_files in Hf. apply array_sort_In in Hf.
      apply In_map_values in Hf. destruct Hf as [k Hf].
      cbn [Store.files set_schedules set_files] in Hf.
      unfold map_delete in Hf. apply filter_In in Hf. destruct Hf as [Hf Hne].
      simpl in Hne. change (item_fileId (fileEntry f)) with (f_id f).
      rewrite (Hkeys k f Hf).
      destruct (String.eqb_spec k id); [discriminate | assumption].
    + apply in_map_iff in Hin. destruct Hin as (s & <- & Hs).
      rewrite <- Epl in Hs. apply activePlaylist_filters in Hs.
      destruct Hs as [Hs _]. unfold GET_schedule in Hs.
      apply array_sort_In in Hs. apply In_map_values in Hs.
      destruct Hs as [k Hs].
      cbn [Store.schedules set_schedules set_files] in Hs.
      apply filter_In in Hs. destruct Hs as [_ Hne]. simpl in Hne. simpl.
      destruct (String.eqb_spec (s_fileId s) id); [discriminate | assumption].
  - pose proof (map_has_delete id id (Store.files st)) as H.
    rewrite String.eqb_refl in H. simpl in H.
    unfold map_has in H. now destruct (map_get id (map_delete id (Store.files st))).
Qed.
End DeleteFacts.

(** ** Players seen over HTTP *)

Section PlayersFacts.
Import Players.
Variable trim : string -> string.
Variable toLowerCase : string -> string.

(** X22.  Heartbeats.  A second heartbeat with the same name and user agent adds
    no entry: it keeps the entry's name, user agent and first-seen instant
    and moves only its last-seen instant.  No heartbeat removes or renames
    an entry made before. *)
Theorem heartbeat_keeps_one_entry (rawName rawUa : option string)
  (now1 now2 : Z) (m : JsMap PlayerState) :
  let m1 := POST trim toLowerCase rawName rawUa now1 m in
  let m2 := POST trim toLowerCase rawName rawUa now2 m1 in
  map fst m2 = map fst m1 /\
  (forall k s1, map_get k m1 = Some s1 ->
     exists s2, map_get k m2 = Some s2 /\
                key s2 = key s1 /\ name s2 = name s1 /\ ua s2 = ua s1 /\
                connectedAt s2 = connectedAt s1 /\
                (lastSeen s2 = lastSeen s1 \/ lastSeen s2 = now2)) /\
  (forall k s, map_get k m = Some s ->
     exists s1, map_get k m1 = Some s1 /\
                key s1 = key s /\ name s1 = name s /\ ua s1 = ua s /\
                connectedAt s1 = connectedAt s).
Proof.
  intros m1 m2. subst m1 m2. unfold POST.
  set (nameTrim := trim _). set (agent := String.substring 0 256 _).
  destruct (negb (str_truthy nameTrim) || String.eqb (toLowerCase nameTrim) "player").
  { split; [reflexivity|]. split; intros k s H; exists s; repeat split; auto. }
  set (k0 := (nameTrim ++ "|" ++ agent)%string).
  set (m1 := match map_get k0 m with
             | Some prev => map_set k0 _ m
             | None => map_set k0 _ m
             end).
  assert (H1 : exists s0, m1 = map_set k0 s0 m /\
                          (forall s, map_get k0 m = Some s ->
                                     key s0 = key s /\ name s0 = name s /\
                                     ua s0 = ua s /\ connectedAt s0 = connectedAt s)).
  { subst m1. destruct (map_get k0 m) as [prev|].
    - eexists. split; [reflexivity|]. intros s [= <-]. now repeat split.
    - eexists. split; [reflexivity|]. discriminate. }
  destruct H1 as (s0 & E1 & Hs0). clearbody m1. subst m1.
  rewrite map_get_set, String.eqb_refl.
  split; [|split].
  - rewrite (map_set_keys k0 _ (map_set k0 s0 m)).
    now rewrite map_has_set, String.eqb_refl.
  - intros k s1 Hk. rewrite map_get_set.
    destruct (String.eqb_spec k k0) as [->|Hne].
    + rewrite map_get_set, String.eqb_refl in Hk. injection Hk as <-.
      eexists. split; [reflexivity|]. cbn. repeat split; auto.
    + exists s1. repeat split; auto.
  - intros k s Hk. rewrite map_get_set.
    destruct (String.eqb_spec k k0) as [->|Hne].
    + exists s0. split; [reflexivity|]. now apply Hs0.
    + exists s. now repeat split.
Qed.

(** X23.  The list of players: every listed player was seen within the last 40
    seconds, the most recently seen comes first, and every stored player
    that is recent and has a proper name is listed. *)
Theorem players_list_recent_first (wsStates : option (list PlayerState))
  (now : Z) (m : JsMap PlayerState) :
  Forall (fun p => (now - ls_lastSeen p <= ACTIVE_WINDOW)%Z)
         (GET trim toLowerCase wsStates now m) /\
  StronglySorted (fun a b => (ls_lastSeen b <= ls_lastSeen a)%Z)
                 (GET trim toLowerCase wsStates now m) /\
  (forall k s, In (k, s) m -> isActive trim toLowerCase now s = true ->
               In (listed trim s) (GET trim toLowerCase wsStates now m)).
Proof.
  unfold GET. split; [|split].
  - apply Forall_forall. intros p Hp. apply array_sort_In in Hp.
    assert (G : forall l, In p (map (listed trim) (filter (isActive trim toLowerCase now) l)) ->
                          (now - ls_lastSeen p <= ACTIVE_WINDOW)%Z).
    { intros l Hin. apply in_map_iff in Hin. destruct Hin as (s & <- & Hs).
      apply filter_In in Hs. destruct Hs as [_ Hs]. unfold isActive in Hs.
      apply andb_true_iff in Hs. destruct Hs as [Hs _].
      apply andb_true_iff in Hs. destruct Hs as [Hs _].
      apply Z.leb_le in Hs. exact Hs. }
    apply in_app_or in Hp. destruct Hp as [Hp|Hp].
    + destruct wsStates as [states|]; [now apply (G states) | destruct Hp].
    + now apply (G (map_values m)).
  - match goal with |- StronglySorted _ (array_sort ?c ?l) =>
      pose proof (@array_sort_sorted _ c) as H;
      specialize (H ltac:(intros; lia)); specialize (H ltac:(intros; lia) l) end.
    induction H as [|a l _ IH Hall]; constructor; [exact IH|].
    rewrite Forall_forall in *. intros x Hx. specialize (Hall x Hx).
    unfold before in Hall. lia.
  - intros k s Hin Hact. apply array_sort_In. apply in_or_app. right.
    apply in_map. apply filter_In. split; [|exact Hact].
    apply In_map_values. now exists k.
Qed.
End PlayersFacts.

(** ** The further properties at sample inputs *)

Lemma keyed_by_id_demoStore : keyed_by_id demoStore.
Proof. intros k f [H|[]]. now inversion H. Qed.

Lemma keyed_by_id_loggedInStore : keyed_by_id loggedInStore.
Proof. intros k f [H|[]]. now inversion H. Qed.

(** The demo store at an instant within its rule's window. *)
Lemma consistent_store_entries_resolve_witness :
  exists f,
    Player.currentFile (Player.resolve utc Js.decimalToNumber 1000 demoStore) 0
                       (Store.GET_files demoStore)
    = Ok (Some f).
Proof.
  destruct (@consistent_store_entries_resolve utc Js.decimalToNumber 1000
              demoStore 0 (Player.FromSchedule demoRule)
              refs_ok_demoStore keyed_by_id_demoStore eq_refl)
    as (f & H & _).
  exists f. exact H.
Defined.

(** Deleting the demo store's only file. *)
Lemma deleted_file_is_never_shown_witness :
  map_get "f1"
    (Store.files (snd (Store.DELETE_file (Some "Bearer t0"%string) "f1"
                         loggedInStore)))
  = None.
Proof.
  destruct (@deleted_file_is_never_shown utc Js.decimalToNumber
              (Some "Bearer t0"%string) "f1" loggedInStore
              keyed_by_id_loggedInStore) as [H _].
  exact (proj1 (proj2 (H eq_refl))).
Defined.

(** From the image at index 0 of two items, with the idle tag ready. *)
Lemma next_and_prev_cycle_witness :
  (Player.activeIndex
     (Player.advance
        (Player.closure_of
           (showing [olderFile; demoVideo] 0 Store.defaultPlayerSettings true))
        (Some true)
        (showing [olderFile; demoVideo] 0 Store.defaultPlayerSettings true))
   < 2)%nat.
Proof.
  apply (@next_and_prev_cycle (Some true)
           (showing [olderFile; demoVideo] 0 Store.defaultPlayerSettings true) 1).
  - discriminate.
  - discriminate.
Defined.

(** The single image's timeout fires. *)
Lemma single_item_timer_fires_once_witness :
  exists st',
    Transport.timeoutFires Player.Basic 1%positive None None singleImage = Ok st' /\
    Player.activeIndex st' = 0%nat /\
    Player.timeouts st' = [].
Proof.
  apply (@single_item_timer_fires_once Player.Basic 1%positive None None
           singleImage
           {| Player.handle := 1%positive; Player.delay := 10000;
              Player.callback :=
                Player.closure_of
                  (showing [olderFile] 0 Store.defaultPlayerSettings true) |}
           eq_refl eq_refl eq_refl).
  right. eexists. split; reflexivity.
Defined.

